(** * Active-learning sentiment analysis: normalizer, tracker queries, corpus partition

    A shallow embedding of the two notebooks of the repository:

    - [02_mlflow_management.ipynb]: [preprocessor], [get_top_runs],
      [load_model];
    - the data-preparation notebook: the partition of the IMDB corpus into
      [training_set], [validation_set] and [unlabeled_pool].

    Python [str] values are sequences of Unicode code points ([text]);
    dictionaries are [gmap]s; exceptions are values of [exn] carried by a
    small state-and-error monad whose state is the module-level [CONFIG]
    dictionary. *)

From Stdlib Require Import NArith ZArith QArith Lqa Ascii String List Lia.
From stdpp Require Import base option list sorting gmap strings pretty.

Local Open Scope nat_scope.

(** ** Python values *)

Module Py.

(** A code point. *)
Definition char := N.

(** A Python [str]. *)
Definition text := list char.

(** A literal, from its ASCII spelling. *)
Definition str (s : string) : text :=
  map N_of_ascii (list_ascii_of_string s).

(** The exceptions the notebooks can raise. *)
Inductive exn :=
| KeyError (key : string)
| IndexError
| ValueError
| NotFoundError (what : string)
| Exception (msg : string).

(** What a call of [preprocessor] receives: [corpus: str or list]. *)
Inductive value :=
| PStr (s : text)
| PList (l : list text).

(** Shape of a value: a bare string, or a list of a given length. *)
Inductive shape :=
| ShapeStr
| ShapeList (n : nat).

Definition shape_of (v : value) : shape :=
  match v with
  | PStr _ => ShapeStr
  | PList l => ShapeList (length l)
  end.

(** [sep.join(parts)] *)
Fixpoint join (sep : text) (parts : list text) : text :=
  match parts with
  | [] => []
  | [p] => p
  | p :: ps => p ++ sep ++ join sep ps
  end.

(** One double-quote character, for messages that contain it. *)
Definition dq : string := String (ascii_of_nat 34) EmptyString.

(** Code that raises but reads no global: [try x <- m; k]. *)
Definition try_bind {A B} (m : exn + A) (k : A -> exn + B) : exn + B :=
  match m with
  | inl e => inl e
  | inr a => k a
  end.

(** [d[key]] on a dictionary. *)
Definition subscript {V} (d : gmap string V) (key : string) : exn + V :=
  match d !! key with
  | Some v => inr v
  | None => inl (KeyError key)
  end.

End Py.

Import Py.

(** ** Computations that read the module globals and may raise *)

Module Eff.

(** The module-level dictionary [CONFIG]. *)
Abbreviation globals := (gmap string string).

Definition M (A : Type) : Type := globals -> (exn + A) * globals.

Definition ret {A} (a : A) : M A := fun g => (inr a, g).

Definition raise {A} (e : exn) : M A := fun g => (inl e, g).

Definition bind {A B} (m : M A) (k : A -> M B) : M B :=
  fun g =>
    match m g with
    | (inl e, g') => (inl e, g')
    | (inr a, g') => k a g'
    end.

(** [CONFIG[key]] *)
Definition getitem (key : string) : M string :=
  fun g =>
    match g !! key with
    | Some v => (inr v, g)
    | None => (inl (KeyError key), g)
    end.

(** A list comprehension whose element expression may raise. *)
Fixpoint comprehension {A B} (f : A -> M B) (l : list A) : M (list B) :=
  match l with
  | [] => ret []
  | x :: l' => bind (f x) (fun y => bind (comprehension f l') (fun ys => ret (y :: ys)))
  end.

(** [m] reads nothing of the globals but [key] and leaves them as they
    are. *)
Definition reads_only (key : string) {A} (m : M A) : Prop :=
  forall g g', g !! key = g' !! key -> fst (m g) = fst (m g') /\ snd (m g) = g.

End Eff.

Import Eff.

Notation "'do' x <- m ; k" := (bind m (fun x => k))
  (at level 10, x name, m at level 100, k at level 200).

Notation "'try' x <- m ; k" := (try_bind m (fun x => k))
  (at level 10, x name, m at level 100, k at level 200).

(** ** The regular expressions of [preprocessor] *)

Module Re.

(** The fragment of [re] the notebook uses: a sequence of character
    classes, each taken once or under a greedy [+]. *)
Inductive quant := One | Plus.

Record item := Item { cls : char -> bool; rep : quant }.

Definition pattern := list item.

(** Greedy repetition with backtracking: take one more character of the
    class when the rest of the match then succeeds, otherwise continue
    with [k] from here. *)
Fixpoint match_star (c : char -> bool) (k : text -> option nat) (s : text) : option nat :=
  match s with
  | [] => k []
  | x :: r =>
      if c x then
        match match_star c k r with
        | Some n => Some (S n)
        | None => k s
        end
      else k s
  end.

(** Length of the match of [p] anchored at the head of [s]. *)
Fixpoint match_items (p : pattern) : text -> option nat :=
  match p with
  | [] => fun _ => Some 0
  | it :: p' => fun s =>
      match s with
      | [] => None
      | x :: r =>
          if cls it x then
            S <$> match rep it with
                  | One => match_items p' r
                  | Plus => match_star (cls it) (match_items p') r
                  end
          else None
      end
  end.

(** [re.sub(p, repl, s)]: leftmost non-overlapping matches, scanned left
    to right; [skip] counts the characters of the current match still to
    be dropped.  Every pattern here needs at least one character, so the
    empty-match rule of [re.sub] never applies. *)
Fixpoint sub_from (p : pattern) (repl : text) (skip : nat) (s : text) : text :=
  match s with
  | [] => []
  | x :: r =>
      match skip with
      | S k => sub_from p repl k r
      | O =>
          match match_items p s with
          | Some (S k) => repl ++ sub_from p repl k r
          | _ => x :: sub_from p repl 0 r
          end
      end
  end.

Definition sub (p : pattern) (repl : text) (s : text) : text :=
  sub_from p repl 0 s.

Definition in_range (lo hi c : N) : bool := (lo <=? c)%N && (c <=? hi)%N.

(** [[a-zA-Z0-9]] *)
Definition is_alnum (c : char) : bool :=
  in_range 97 122 c || in_range 65 90 c || in_range 48 57 c.

(** [\s] on a [str] pattern: the Unicode whitespace code points. *)
Definition is_space (c : char) : bool :=
  in_range 9 13 c || in_range 28 32 c || (c =? 133)%N || (c =? 160)%N
  || (c =? 5760)%N || in_range 8192 8202 c || (c =? 8232)%N || (c =? 8233)%N
  || (c =? 8239)%N || (c =? 8287)%N || (c =? 12288)%N.

Definition lt_sign : char := 60%N.
Definition gt_sign : char := 62%N.
Definition space : char := 32%N.

(** [r'<[^>]+>'] *)
Definition html_tag : pattern :=
  [ Item (N.eqb lt_sign) One;
    Item (fun c => negb (c =? gt_sign)%N) Plus;
    Item (N.eqb gt_sign) One ].

(** ["[^a-zA-Z0-9]+"] *)
Definition non_alphanumeric : pattern :=
  [ Item (fun c => negb (is_alnum c)) Plus ].

(** ["\s+"] *)
Definition whitespaces : pattern :=
  [ Item is_space Plus ].

End Re.

(** ** The text normalizer: [preprocessor] *)

Module Normalizer.

(** [wordnet.ADJ], [wordnet.NOUN], [wordnet.VERB], [wordnet.ADV]. *)
Inductive wordnet_pos := ADJ | NOUN | VERB | ADV.

(** The NLTK entry points [preprocessor] calls.  They are library code;
    the notebook only composes them. *)
Record nltk := Nltk {
  word_tokenize : text -> list text;
  porter_stem : text -> text;
  wordnet_lemmatize : text -> wordnet_pos -> text;
  pos_tag : list text -> list (text * text)
}.

(** [str.lower] on one character.  Outside ASCII no code point lowers to
    one of the keys of [tag_dict], so only the ASCII letters matter for
    the lookup below. *)
Definition lower (c : char) : char :=
  if Re.in_range 65 90 c then (c + 32)%N else c.

Definition tag_dict : gmap text wordnet_pos :=
  {[ str "j" := ADJ; str "n" := NOUN; str "v" := VERB; str "r" := ADV ]}.

(** [pos_tagger(word)]: [nltk.pos_tag([word])[0][1][0].lower()], then
    [tag_dict.get(tag, wordnet.NOUN)]. *)
Definition pos_tagger (nl : nltk) (word : text) : M wordnet_pos :=
  match pos_tag nl [word] with
  | [] => raise IndexError
  | (_, tag) :: _ =>
      match tag with
      | [] => raise IndexError
      | c :: _ => ret (default NOUN (tag_dict !! [lower c]))
      end
  end.

Definition normalizer_message : string :=
  "Please enter CONFIG[" +:+ dq +:+ "NORMALIZER" +:+ dq +:+ "] as "
  +:+ dq +:+ "stem" +:+ dq +:+ " or " +:+ dq +:+ "lemma" +:+ dq.

(** The three [re.sub] calls at the head of the loop body. *)
Definition clean (t : text) : text :=
  let t := Re.sub Re.html_tag [] t in
  let t := Re.sub Re.non_alphanumeric (str " ") t in
  Re.sub Re.whitespaces (str " ") t.

(** The body of [for text in corpus]. *)
Definition loop_body (nl : nltk) (t : text) : M text :=
  let t := clean t in
  do normalizer <- getitem "NORMALIZER";
  if String.eqb normalizer "stem" then
    ret (join (str " ") (map (porter_stem nl) (word_tokenize nl t)))
  else if String.eqb normalizer "lemma" then
    do ws <- comprehension
               (fun w => do pos <- pos_tagger nl w; ret (wordnet_lemmatize nl w pos))
               (word_tokenize nl t);
    ret (join (str " ") ws)
  else raise (Exception normalizer_message).

Fixpoint for_text_in (nl : nltk) (corpus preprocessed_corpus : list text) : M (list text) :=
  match corpus with
  | [] => ret preprocessed_corpus
  | t :: rest =>
      do t' <- loop_body nl t;
      for_text_in nl rest (preprocessed_corpus ++ [t'])
  end.

Definition preprocessor (nl : nltk) (corpus : value) : M value :=
  let corpus := match corpus with PStr s => [s] | PList l => l end in
  do preprocessed_corpus <- for_text_in nl corpus [];
  ret (PList preprocessed_corpus).

(** *** The normalization as the specification words it *)

Inductive mode := Stem | Lemma.

Definition mode_of (normalizer : string) : option mode :=
  if String.eqb normalizer "stem" then Some Stem
  else if String.eqb normalizer "lemma" then Some Lemma
  else None.

(** Part of speech of a tag: adjective, noun, verb or adverb by its first
    letter, noun for every other tag. *)
Definition pos_of_tag (tag : text) : wordnet_pos :=
  match tag with
  | c :: _ =>
      if (lower c =? 106)%N then ADJ
      else if (lower c =? 118)%N then VERB
      else if (lower c =? 114)%N then ADV
      else NOUN
  | [] => NOUN
  end.

Definition tag_of (nl : nltk) (w : text) : text :=
  match pos_tag nl [w] with
  | (_, tag) :: _ => tag
  | [] => []
  end.

(** Number of characters up to and including the first [>]. *)
Fixpoint closing (s : text) : option nat :=
  match s with
  | [] => None
  | c :: r => if (c =? Re.gt_sign)%N then Some 1 else S <$> closing r
  end.

(** A tag is [<], one or more characters other than [>], and [>]: the
    number of characters of the tag that follow its [<], when [s] is what
    follows a [<]. *)
Definition tag_after_lt (s : text) : option nat :=
  match s with
  | [] => None
  | c :: r => if (c =? Re.gt_sign)%N then None else S <$> closing r
  end.

Fixpoint strip_markup_upto (fuel : nat) (s : text) : text :=
  match fuel with
  | O => s
  | S fuel' =>
      match s with
      | [] => []
      | c :: r =>
          if (c =? Re.lt_sign)%N then
            match tag_after_lt r with
            | Some n => strip_markup_upto fuel' (List.skipn n r)
            | None => c :: strip_markup_upto fuel' r
            end
          else c :: strip_markup_upto fuel' r
      end
  end.

(** Strip markup tags, left to right. *)
Definition strip_markup (s : text) : text := strip_markup_upto (length s) s.

(** Replace every maximal run of characters of a class by one separator;
    [in_run] tells that the previous character was of the class. *)
Fixpoint collapse_runs (in_class : char -> bool) (sep : char) (in_run : bool) (s : text)
  : text :=
  match s with
  | [] => []
  | c :: r =>
      if in_class c then
        if in_run then collapse_runs in_class sep true r
        else sep :: collapse_runs in_class sep true r
      else c :: collapse_runs in_class sep false r
  end.

Definition collapse_non_alphanumeric (s : text) : text :=
  collapse_runs (fun c => negb (Re.is_alnum c)) Re.space false s.

Definition collapse_whitespace (s : text) : text :=
  collapse_runs Re.is_space Re.space false s.

(** Strip the tags, collapse the non-alphanumeric runs to single
    separators, collapse the whitespace, then stem or lemmatize each
    token. *)
Definition normalize (nl : nltk) (m : mode) (t : text) : text :=
  let tokens :=
    word_tokenize nl (collapse_whitespace (collapse_non_alphanumeric (strip_markup t))) in
  match m with
  | Stem => join [Re.space] (map (porter_stem nl) tokens)
  | Lemma =>
      join [Re.space]
        (map (fun w => wordnet_lemmatize nl w (pos_of_tag (tag_of nl w))) tokens)
  end.

(** The texts a call iterates over. *)
Definition texts_of (corpus : value) : list text :=
  match corpus with
  | PStr s => [s]
  | PList l => l
  end.

(** What the notebook relies on from NLTK.  First, [pos_tag] answers with
    a non-empty tag for the word it is given. *)
Definition tags_words (nl : nltk) : Prop :=
  forall w, exists w' c tag rest, pos_tag nl [w] = (w', c :: tag) :: rest.

Definition alnum_word (w : text) : Prop := Forall (fun c => Re.is_alnum c = true) w.

Definition alnum_or_space (c : char) : Prop := Re.is_alnum c = true \/ c = Re.space.

(** Second, the tokens of a text made of alphanumeric words and spaces
    are alphanumeric words, and stemming or lemmatizing an alphanumeric
    word gives an alphanumeric word. *)
Record keeps_alnum (nl : nltk) : Prop := {
  tokens_alnum : forall t, Forall alnum_or_space t -> Forall alnum_word (word_tokenize nl t);
  stem_alnum : forall w, alnum_word w -> alnum_word (porter_stem nl w);
  lemma_alnum : forall w p, alnum_word w -> alnum_word (wordnet_lemmatize nl w p)
}.

(** *** Stand-ins for NLTK, to run the normalizer on concrete inputs *)

(** Split on single spaces, dropping empty pieces. *)
Fixpoint split_words (acc : text) (s : text) : list text :=
  match s with
  | [] => match acc with [] => [] | _ => [rev acc] end
  | c :: r =>
      if (c =? Re.space)%N then
        match acc with
        | [] => split_words [] r
        | _ => rev acc :: split_words [] r
        end
      else split_words (c :: acc) r
  end.

(** Lower-cases and leaves the word as it is otherwise; tags every word
    as a noun. *)
Definition plain_nltk : nltk :=
  {| word_tokenize := split_words [];
     porter_stem := map lower;
     wordnet_lemmatize := fun w _ => map lower w;
     pos_tag := map (fun w => (w, str "NN")) |}.

Definition config (normalizer : string) : globals := {[ "NORMALIZER" := normalizer ]}.

Definition review : text := str "A <b>good</b> film!<br /><br />Good  cast...".

End Normalizer.

(** ** The experiment tracker: [get_top_runs], [load_model] *)

Module Tracker.

Inductive lifecycle := active | deleted.

Inductive view_type := ACTIVE_ONLY | DELETED_ONLY | ALL.

Inductive direction := ASC | DESC.

(** [run.info] *)
Record RunInfo := {
  run_id : string;
  experiment_id : string;
  start_time : Z;
  lifecycle_stage : lifecycle
}.

(** [run.data].  Metric values are floats; only their order is used, so
    they are taken as rationals. *)
Record RunData := {
  metrics : gmap string Q;
  tags : gmap string string
}.

Record Run := { info : RunInfo; data : RunData }.

(** The two calls the notebook makes on [client]; [order_by] is the typed
    form of the one-element list [["metrics.<name> <direction>"]]. *)
Record MlflowClient := {
  search_runs :
    string -> (Run -> bool) -> view_type -> nat -> string * direction -> exn + list Run;
  get_run : string -> exn + Run
}.

(** The loop of [get_top_runs]: the [print] calls read
    [run.data.tags['model_type']], which raises when the tag is absent. *)
Fixpoint for_run_in (runs : list Run) (run_ids : list string) : exn + list string :=
  match runs with
  | [] => inr run_ids
  | run :: rest =>
      try model_type <- subscript (tags (data run)) "model_type";
      for_run_in rest (run_ids ++ [run_id (info run)])
  end.

Definition get_top_runs (client : MlflowClient) (experiment_id max_results : nat)
  : exn + list string :=
  try runs <- search_runs client (pretty experiment_id) (fun _ => true) ACTIVE_ONLY
                max_results ("accuracy", DESC);
  for_run_in runs [].

(** [f"mlflow/mlruns/{experiment_id}/{run_id}/artifacts"] *)
Definition artifact_path (experiment_id : nat) (run_id : string) : string :=
  "mlflow/mlruns/" +:+ pretty experiment_id +:+ "/" +:+ run_id +:+ "/artifacts".

Definition load_model {Model : Type} (client : MlflowClient)
    (sklearn_load_model : string -> exn + Model)
    (run_id : string) (experiment_id : nat) : exn + Model :=
  try run <- get_run client run_id;
  try model_type <- subscript (tags (data run)) "model_type";
  sklearn_load_model (artifact_path experiment_id run_id).

(** Python defaults: [experiment_id = 1], [max_results = 3]. *)
Definition default_experiment_id : nat := 1.
Definition default_max_results : nat := 3.

(** *** The tracking server

    [client.search_runs], [client.get_run] and [mlflow.sklearn.load_model]
    are MLflow code; what follows states what the specification says of
    them. *)

(** Modelled from the spec: what is stored under an artifact path, a
    persisted model or something that cannot be loaded. *)
Inductive artifact (Model : Type) :=
| Pickled (m : Model)
| Corrupted.

Arguments Pickled {Model} m.
Arguments Corrupted {Model}.

Definition metric (key : string) (r : Run) : option Q := metrics (data r) !! key.

(** Modelled from the spec: [r1] may be listed before [r2] under
    [<key> DESC], a larger metric first, equal metrics by earliest
    [start_time].  Runs that do not carry the metric come last. *)
Definition before_desc (key : string) (r1 r2 : Run) : bool :=
  match metric key r1, metric key r2 with
  | Some a, Some b =>
      match (a ?= b)%Q with
      | Gt => true
      | Eq => (start_time (info r1) <=? start_time (info r2))%Z
      | Lt => false
      end
  | Some _, None => true
  | None, Some _ => false
  | None, None => (start_time (info r1) <=? start_time (info r2))%Z
  end.

(** Modelled from the spec: the same for [<key> ASC]. *)
Definition before_asc (key : string) (r1 r2 : Run) : bool :=
  match metric key r1, metric key r2 with
  | Some a, Some b =>
      match (a ?= b)%Q with
      | Lt => true
      | Eq => (start_time (info r1) <=? start_time (info r2))%Z
      | Gt => false
      end
  | Some _, None => true
  | None, Some _ => false
  | None, None => (start_time (info r1) <=? start_time (info r2))%Z
  end.

(** Modelled from the spec: the order an [order_by] asks for. *)
Definition before (order_by : string * direction) (r1 r2 : Run) : Prop :=
  match order_by with
  | (key, DESC) => before_desc key r1 r2 = true
  | (key, ASC) => before_asc key r1 r2 = true
  end.

#[global] Instance before_dec order_by r1 r2 : Decision (before order_by r1 r2).
Proof. destruct order_by as [key []]; simpl; apply _. Defined.

(** Modelled from the spec: the runs a view shows. *)
Definition visible (v : view_type) (r : Run) : bool :=
  match v, lifecycle_stage (info r) with
  | ACTIVE_ONLY, active => true
  | DELETED_ONLY, deleted => true
  | ALL, _ => true
  | _, _ => false
  end.

(** Modelled from the spec: the runs of an experiment that pass the
    filter and the view. *)
Definition selected (experiment_ids : string) (keep : Run -> bool) (v : view_type)
    (r : Run) : bool :=
  String.eqb (experiment_id (info r)) experiment_ids && keep r && visible v r.

(** Modelled from the spec: the tracker's [search], which the notebook
    reaches through [client.search_runs] and whose code is not part of the
    repository.  It keeps the Run Records of the experiment that pass the
    filter, orders them by the metric ([DESC]: descending, ties broken by
    earliest [start_time]) and returns at most [max_results] of them. *)
Definition search (store : list Run) (experiment_ids : string) (keep : Run -> bool)
    (v : view_type) (max_results : nat) (order_by : string * direction)
  : exn + list Run :=
  inr (take max_results
         (merge_sort (before order_by)
            (List.filter (selected experiment_ids keep v) store))).

(** Modelled from the spec: the lookup of a Run Record by [run_id], which
    fails with a NotFoundError when the id is unknown. *)
Definition lookup_run (store : list Run) (id : string) : exn + Run :=
  match List.find (fun r => String.eqb (run_id (info r)) id) store with
  | Some r => inr r
  | None => inl (NotFoundError id)
  end.

(** Modelled from the spec: the loading of a model artifact, which fails
    with a NotFoundError when the artifact is missing or corrupted. *)
Definition read_artifact {Model : Type} (files : gmap string (artifact Model))
    (path : string) : exn + Model :=
  match files !! path with
  | Some (Pickled m) => inr m
  | Some Corrupted => inl (NotFoundError path)
  | None => inl (NotFoundError path)
  end.

(** Modelled from the spec: the client of a tracker that holds [store]. *)
Definition client_of (store : list Run) : MlflowClient :=
  {| search_runs := search store; get_run := lookup_run store |}.

(** A Run Record as the data model has it: it carries the [model_type]
    tag and the [accuracy] metric. *)
Definition well_formed (r : Run) : Prop :=
  is_Some (tags (data r) !! "model_type") /\ is_Some (metric "accuracy" r).

Definition accuracy (r : Run) : Q := default 0%Q (metric "accuracy" r).

(** Descending accuracy, ties broken by earliest [start_time]. *)
Definition accuracy_order (r1 r2 : Run) : Prop :=
  (accuracy r2 < accuracy r1)%Q
  \/ ((accuracy r1 == accuracy r2)%Q /\ (start_time (info r1) <= start_time (info r2))%Z).

Definition mk_run (id : string) (experiment : string) (t : Z) (model_type : string)
    (acc : Q) : Run :=
  {| info := {| run_id := id; experiment_id := experiment; start_time := t;
                lifecycle_stage := active |};
     data := {| metrics := {[ "accuracy" := acc ]};
                tags := {[ "model_type" := model_type ]} |} |}.

(** The three runs the notebook lists, in the order they were started. *)
Definition notebook_runs : list Run :=
  [ mk_run "35b60b1ee6054fb5b78084524dfdd307" "1" 1657177835952 "Naive Bayes"
      (8143 # 10000);
    mk_run "e2eff7851b2947f5aee823422f992585" "1" 1657177970430 "Random Forest"
      (7457 # 10000);
    mk_run "202d3bb342ce46048b3bf3bf3dda6199" "1" 1657180074773 "SGDClassifier"
      (8015 # 10000) ].

(** Artifact files for them: the first model is in place, the last one is
    damaged, the second one was never written. *)
Definition notebook_files : gmap string (artifact string) :=
  {[ artifact_path 1 "35b60b1ee6054fb5b78084524dfdd307" := Pickled "MultinomialNB";
     artifact_path 1 "202d3bb342ce46048b3bf3bf3dda6199" := Corrupted ]}.

(** Run Records with accuracies 0.75, 0.81 and 0.80, stored in this order. *)
Definition three_runs : list Run :=
  [ mk_run "run-075" "1" 10 "Random Forest" (75 # 100);
    mk_run "run-081" "1" 20 "Naive Bayes" (81 # 100);
    mk_run "run-080" "1" 30 "SGDClassifier" (80 # 100) ].

(** Two runs of equal accuracy, the later one stored first, and a third. *)
Definition tied_runs : list Run :=
  [ mk_run "late" "1" 30 "SGDClassifier" (80 # 100);
    mk_run "early" "1" 10 "Naive Bayes" (80 # 100);
    mk_run "best" "1" 20 "Random Forest" (90 # 100) ].

End Tracker.

(** ** The corpus partition of the data-preparation notebook *)

Module Partition.

Inductive cell :=
| CInt (n : nat)
| CText (t : text).

(** A row of a DataFrame: its index label and its cells by column name;
    also a record of an SQL table, which has no index. *)
Abbreviation record := (list (string * cell)).

Record Row := { label : nat; cells : record }.

Abbreviation DataFrame := (list Row).

Definition column (name : string) (r : record) : option cell :=
  snd <$> List.find (fun kv => String.eqb (fst kv) name) r.

(** The row of a record of the file. *)
Definition row_of (i : nat) (rec : text * text) : Row :=
  {| label := i;
     cells := [("review", CText (fst rec)); ("sentiment", CText (snd rec))] |}.

(** [pd.read_csv]: a [RangeIndex] over the records of the file, whose
    columns are [review] and [sentiment]. *)
Definition read_csv (file : list (text * text)) : DataFrame := imap row_of file.

(** [df.index] *)
Definition index (df : DataFrame) : list nat := label <$> df.

(** [df.sample(n, random_state=seed)]: the first [n] positions of
    [RandomState(seed).permutation(len(df))], then [take]. *)
Definition sample (permutation : nat -> nat -> list nat) (n seed : nat) (df : DataFrame)
  : exn + DataFrame :=
  if n <=? length df then
    match mapM (fun i => df !! i) (take n (permutation seed (length df))) with
    | Some rows => inr rows
    | None => inl IndexError
    end
  else inl ValueError.

(** [df.drop(labels)] *)
Definition drop (labels : list nat) (df : DataFrame) : exn + DataFrame :=
  if forallb (fun l => existsb (fun r => label r =? l) df) labels then
    inr (filter (fun r => label r ∉ labels) df)
  else inl (KeyError "index").

Definition without (name : string) (r : Row) : Row :=
  {| label := label r;
     cells := List.filter (fun kv => negb (String.eqb (fst kv) name)) (cells r) |}.

(** [df.drop(columns=name)] *)
Definition drop_columns (name : string) (df : DataFrame) : exn + DataFrame :=
  if forallb (fun r => bool_decide (is_Some (column name (cells r)))) df then
    inr (without name <$> df)
  else inl (KeyError name).

(** [df.reset_index()] *)
Definition reset_index (df : DataFrame) : DataFrame :=
  imap (fun i r => {| label := i; cells := ("index", CInt (label r)) :: cells r |}) df.

(** [df.rename(columns={old: new})] *)
Definition rename (old new : string) (df : DataFrame) : DataFrame :=
  (fun r =>
     {| label := label r;
        cells := (fun kv => (if String.eqb (fst kv) old then new else fst kv, snd kv))
                   <$> cells r |})
  <$> df.

(** [df.to_sql(table, conn, if_exists='append', index=False)] *)
Definition to_sql (table : list record) (df : DataFrame) : list record :=
  table ++ (cells <$> df).

(** The tables of [dataset.db]. *)
Module Sql.

Record database := {
  training : list record;
  validation : list record;
  unlabeled_pool : list record
}.

(** [CREATE TABLE IF NOT EXISTS] on a new file. *)
Definition created : database :=
  {| training := []; validation := []; unlabeled_pool := [] |}.

End Sql.

(** The frames the notebook holds at its end, and the database. *)
Record prepared := {
  training_set : DataFrame;
  validation_set : DataFrame;
  unlabeled_pool : DataFrame;
  conn : Sql.database
}.

(** [df.reset_index().rename(columns={"index": "id"})] *)
Definition export (df : DataFrame) : DataFrame :=
  rename "index" "id" (reset_index df).

(** The cells of the notebook, top to bottom, with the two sample sizes
    and the seed as arguments. *)
Definition cells_of_notebook (permutation : nat -> nat -> list nat)
    (training_size validation_size random_state : nat) (file : list (text * text))
  : exn + prepared :=
  let conn := Sql.created in
  let df := read_csv file in
  try training_set <- sample permutation training_size random_state df;
  try df <- drop (index training_set) df;
  try validation_set <- sample permutation validation_size random_state df;
  try df <- drop (index validation_set) df;
  let unlabeled_pool := df in
  try unlabeled_pool <- drop_columns "sentiment" unlabeled_pool;
  inr {| training_set := training_set;
         validation_set := validation_set;
         unlabeled_pool := unlabeled_pool;
         conn :=
           {| Sql.training := to_sql (Sql.training conn) (export training_set);
              Sql.validation := to_sql (Sql.validation conn) (export validation_set);
              Sql.unlabeled_pool :=
                to_sql (Sql.unlabeled_pool conn) (export unlabeled_pool) |} |}.

(** [df.sample(5000, random_state=158)], [df.sample(2000, random_state=158)] *)
Definition training_size : nat := N.to_nat 5000.
Definition validation_size : nat := N.to_nat 2000.
Definition random_state : nat := 158.

Definition notebook (permutation : nat -> nat -> list nat) (file : list (text * text))
  : exn + prepared :=
  cells_of_notebook permutation training_size validation_size random_state file.

(** The ids of a pool: its [id] column. *)
Definition id_of (r : record) : option nat :=
  match column "id" r with
  | Some (CInt n) => Some n
  | _ => None
  end.

Definition ids (table : list record) : gset nat := list_to_set (omap id_of table).

(** The label of an Example: its [sentiment] cell, when it has one. *)
Definition sentiment_of (r : record) : option cell := column "sentiment" r.

(** The ids of the corpus: the row positions of the file. *)
Definition corpus_ids (file : list (text * text)) : gset nat :=
  list_to_set (seq 0 (length file)).

(** *** The pools during a session *)

(** Modelled from the spec: the three pools of a session as sets of ids.
    The engine that moves Examples between them is not part of the
    repository. *)
Record pools := {
  training_ids : gset nat;
  validation_ids : gset nat;
  unlabeled_ids : gset nat
}.

(** Modelled from the spec: the pools the engine loads at Init. *)
Definition loaded (conn : Sql.database) : pools :=
  {| training_ids := ids (Sql.training conn);
     validation_ids := ids (Sql.validation conn);
     unlabeled_ids := ids (Sql.unlabeled_pool conn) |}.

(** Modelled from the spec: the Append step, which moves the Examples of
    the Query Batch from the UnlabeledPool to Training. *)
Definition append (query_batch : list nat) (s : pools) : pools :=
  {| training_ids := training_ids s ∪ (unlabeled_ids s ∩ list_to_set query_batch);
     validation_ids := validation_ids s;
     unlabeled_ids := unlabeled_ids s ∖ list_to_set query_batch |}.

(** The pools are pairwise disjoint and cover the corpus. *)
Definition partitioned (corpus : gset nat) (s : pools) : Prop :=
  training_ids s ## validation_ids s
  /\ training_ids s ## unlabeled_ids s
  /\ validation_ids s ## unlabeled_ids s
  /\ training_ids s ∪ validation_ids s ∪ unlabeled_ids s = corpus.

(** A generator that reverses the order, to run the notebook. *)
Definition backwards (seed n : nat) : list nat := rev (seq 0 n).

Definition imdb (rows : nat) : list (text * text) :=
  replicate rows (str "Okay. <br />Who was it?", str "negative").

End Partition.

(** ** Further notions used to describe the notebooks *)

Module Shapes.

Import Normalizer.

(** No two spaces in a row. *)
Fixpoint single_spaced (t : text) : bool :=
  match t with
  | c1 :: (c2 :: _) as r =>
      negb ((c1 =? Re.space)%N && (c2 =? Re.space)%N) && single_spaced r
  | _ => true
  end.

(** A stand-in for NLTK whose tagger answers nothing. *)
Definition untagging_nltk : nltk :=
  {| word_tokenize := split_words [];
     porter_stem := map lower;
     wordnet_lemmatize := fun w _ => map lower w;
     pos_tag := fun _ => [] |}.

(** A stand-in for NLTK with another tagger and lemmatizer. *)
Definition verb_nltk : nltk :=
  {| word_tokenize := split_words [];
     porter_stem := map lower;
     wordnet_lemmatize := fun w _ => w;
     pos_tag := map (fun w => (w, str "VB")) |}.

(** A string without [/]. *)
Fixpoint no_slash (s : string) : bool :=
  match s with
  | EmptyString => true
  | String c s' => negb (Ascii.eqb c "/") && no_slash s'
  end.

(** Whether a run carries the [model_type] tag. *)
Definition has_model_type (r : Tracker.Run) : bool :=
  bool_decide (is_Some (Tracker.tags (Tracker.data r) !! "model_type")).

(** The three export cells of the notebook, run on a database that
    already holds the tables: [to_sql(..., if_exists='append', index=False)]
    on [training_set], [validation_set] and [unlabeled_pool]. *)
Definition export_cells (conn : Partition.Sql.database) (p : Partition.prepared)
  : Partition.Sql.database :=
  {| Partition.Sql.training :=
       Partition.to_sql (Partition.Sql.training conn)
         (Partition.export (Partition.training_set p));
     Partition.Sql.validation :=
       Partition.to_sql (Partition.Sql.validation conn)
         (Partition.export (Partition.validation_set p));
     Partition.Sql.unlabeled_pool :=
       Partition.to_sql (Partition.Sql.unlabeled_pool conn)
         (Partition.export (Partition.unlabeled_pool p)) |}.

End Shapes.

(** * Properties *)

(** ** The regular expressions against the steps they implement *)

Module ReFacts.
Import Re Normalizer.

Lemma match_star_total c s : exists n, match_star c (fun _ => Some 0) s = Some n.
Proof.
  induction s as [|x r [n IH]]; simpl; [eauto|].
  destruct (c x); [rewrite IH|]; eauto.
Qed.

Lemma sub_plus_collapse c sep s :
  (forall n, match_star c (fun _ => Some 0) s = Some n ->
             sub_from [Item c Plus] [sep] n s = collapse_runs c sep true s)
  /\ sub_from [Item c Plus] [sep] 0 s = collapse_runs c sep false s.
Proof.
  induction s as [|x r [IHrun IH0]]; [split; [intros n _; destruct n|]; reflexivity|].
  destruct (match_star_total c r) as [m Hm].
  split.
  - intros n. simpl. destruct (c x) eqn:Hx.
    + rewrite Hm. intros [= <-]. apply IHrun, Hm.
    + intros [= <-]. simpl. rewrite ?Hx. simpl. by rewrite IH0.
  - simpl. destruct (c x) eqn:Hx; simpl.
    + rewrite Hm. simpl. f_equal. apply IHrun, Hm.
    + by rewrite IH0.
Qed.

Lemma sub_non_alphanumeric s :
  sub non_alphanumeric (str " ") s = collapse_non_alphanumeric s.
Proof. apply (sub_plus_collapse (fun c => negb (is_alnum c)) space s). Qed.

Lemma sub_whitespaces s : sub whitespaces (str " ") s = collapse_whitespace s.
Proof. apply (sub_plus_collapse is_space space s). Qed.

Lemma match_closing s :
  match_star (fun c => negb (c =? gt_sign)%N) (match_items [Item (N.eqb gt_sign) One]) s
  = closing s.
Proof.
  induction s as [|x r IH]; [reflexivity|].
  cbn [match_star closing]. rewrite IH.
  assert (Hk : match_items [Item (N.eqb gt_sign) One] (x :: r)
               = if (x =? gt_sign)%N then Some 1 else None).
  { cbn [match_items cls rep]. rewrite (N.eqb_sym gt_sign x).
    by destruct (x =? gt_sign)%N. }
  rewrite Hk. destruct (x =? gt_sign)%N; simpl; [reflexivity|].
  destruct (closing r); reflexivity.
Qed.

Lemma match_html_tag x r :
  match_items html_tag (x :: r)
  = if (x =? lt_sign)%N then S <$> tag_after_lt r else None.
Proof.
  cbn [match_items html_tag cls rep]. rewrite (N.eqb_sym lt_sign x).
  destruct (x =? lt_sign)%N; [|reflexivity].
  f_equal. destruct r as [|c r]; [reflexivity|].
  cbn [tag_after_lt]. destruct (c =? gt_sign)%N; simpl; [reflexivity|].
  f_equal. apply match_closing.
Qed.

Lemma sub_from_skipn p repl k s :
  sub_from p repl k s = sub_from p repl 0 (List.skipn k s).
Proof.
  revert s. induction k as [|k IH]; intros s; [reflexivity|].
  destruct s as [|x r]; [reflexivity|]. simpl. apply IH.
Qed.

Lemma strip_markup_upto_sub fuel s :
  length s <= fuel -> strip_markup_upto fuel s = sub_from html_tag [] 0 s.
Proof.
  revert s. induction fuel as [|fuel IH]; intros s Hlen.
  - destruct s; [reflexivity|simpl in Hlen; lia].
  - destruct s as [|x r]; [reflexivity|].
    cbn [strip_markup_upto sub_from]. rewrite match_html_tag.
    simpl in Hlen.
    destruct (x =? lt_sign)%N.
    + destruct (tag_after_lt r) as [n|]; simpl.
      * rewrite sub_from_skipn. apply IH.
        rewrite length_skipn. lia.
      * f_equal. apply IH. lia.
    + f_equal. apply IH. lia.
Qed.

Lemma sub_html_tag s : sub html_tag [] s = strip_markup s.
Proof. symmetry. apply strip_markup_upto_sub. reflexivity. Qed.

End ReFacts.

(** ** Computations that only read [CONFIG] *)

Module EffFacts.

Lemma reads_only_ret key {A} (a : A) : reads_only key (ret a).
Proof. intros g g' _. split; reflexivity. Qed.

Lemma reads_only_raise key {A} e : reads_only key (@raise A e).
Proof. intros g g' _. split; reflexivity. Qed.

Lemma reads_only_getitem key : reads_only key (getitem key).
Proof.
  intros g g' H. unfold getitem. rewrite <- H.
  destruct (g !! key); split; reflexivity.
Qed.

Lemma reads_only_bind key {A B} (m : M A) (k : A -> M B) :
  reads_only key m -> (forall a, reads_only key (k a)) -> reads_only key (bind m k).
Proof.
  intros Hm Hk g g' H. unfold bind.
  destruct (Hm g g' H) as [Hfst Hsnd].
  destruct (Hm g' g' eq_refl) as [_ Hsnd'].
  destruct (m g) as [[e|a] g1], (m g') as [[e'|a'] g1']; simpl in *; subst;
    try discriminate.
  - split; [congruence|reflexivity].
  - injection Hfst as <-. apply Hk, H.
Qed.

Lemma reads_only_comprehension key {A B} (f : A -> M B) l :
  (forall x, reads_only key (f x)) -> reads_only key (comprehension f l).
Proof.
  intros Hf. induction l as [|x l IH]; simpl.
  - apply reads_only_ret.
  - apply reads_only_bind; [apply Hf|]. intros y.
    apply reads_only_bind; [apply IH|]. intros ys. apply reads_only_ret.
Qed.

Lemma comprehension_run {A B} (f : A -> M B) (h : A -> B) l g :
  (forall x, f x g = (inr (h x), g)) -> comprehension f l g = (inr (map h l), g).
Proof.
  intros Hf. induction l as [|x l IH]; [reflexivity|].
  simpl. unfold bind at 1. rewrite Hf. unfold bind at 1. by rewrite IH.
Qed.

End EffFacts.

(** ** The normalizer *)

Module NormalizerFacts.
Import Re Normalizer ReFacts EffFacts.

Section WithNltk.

Variable nl : nltk.

Lemma tag_dict_get c tag :
  default NOUN (tag_dict !! [lower c]) = pos_of_tag (c :: tag).
Proof.
  unfold pos_of_tag, tag_dict.
  change (str "j") with [106%N]. change (str "n") with [110%N].
  change (str "v") with [118%N]. change (str "r") with [114%N].
  destruct (lower c =? 106)%N eqn:Hj; [apply N.eqb_eq in Hj; by rewrite Hj|].
  destruct (lower c =? 118)%N eqn:Hv; [apply N.eqb_eq in Hv; by rewrite Hv|].
  destruct (lower c =? 114)%N eqn:Hr; [apply N.eqb_eq in Hr; by rewrite Hr|].
  apply N.eqb_neq in Hj, Hv, Hr.
  destruct (decide (lower c = 110%N)) as [Hn|Hn]; [by rewrite Hn|].
  rewrite !lookup_insert_ne by congruence.
  rewrite lookup_singleton_ne by congruence.
  reflexivity.
Qed.

Lemma pos_tagger_reads_only w : reads_only "NORMALIZER" (pos_tagger nl w).
Proof.
  unfold pos_tagger. destruct (pos_tag nl [w]) as [|[w' [|c tag]] rest];
    auto using reads_only_raise, reads_only_ret.
Qed.

Lemma pos_tagger_run w g :
  tags_words nl -> pos_tagger nl w g = (inr (pos_of_tag (tag_of nl w)), g).
Proof.
  intros Hnl. destruct (Hnl w) as (w' & c & tag & rest & Htag).
  unfold pos_tagger, tag_of. rewrite Htag. unfold ret. by rewrite (tag_dict_get c tag).
Qed.

Lemma clean_steps t :
  clean t = collapse_whitespace (collapse_non_alphanumeric (strip_markup t)).
Proof.
  unfold clean. by rewrite sub_html_tag, sub_non_alphanumeric, sub_whitespaces.
Qed.

Lemma loop_body_reads_only t : reads_only "NORMALIZER" (loop_body nl t).
Proof.
  unfold loop_body. apply reads_only_bind; [apply reads_only_getitem|].
  intros normalizer. destruct (String.eqb normalizer "stem"); [apply reads_only_ret|].
  destruct (String.eqb normalizer "lemma"); [|apply reads_only_raise].
  apply reads_only_bind; [|intros; apply reads_only_ret].
  apply reads_only_comprehension. intros w.
  apply reads_only_bind; [apply pos_tagger_reads_only|intros; apply reads_only_ret].
Qed.

Lemma loop_body_stem t g :
  g !! "NORMALIZER" = Some "stem" ->
  loop_body nl t g = (inr (normalize nl Stem t), g).
Proof.
  intros Hg. unfold loop_body, bind, getitem. rewrite Hg. simpl.
  unfold ret, normalize. by rewrite clean_steps.
Qed.

Lemma loop_body_lemma t g :
  tags_words nl ->
  g !! "NORMALIZER" = Some "lemma" ->
  loop_body nl t g = (inr (normalize nl Lemma t), g).
Proof.
  intros Hnl Hg. unfold loop_body, bind at 1, getitem. rewrite Hg. simpl.
  unfold bind at 1.
  rewrite (comprehension_run _ (fun w => wordnet_lemmatize nl w (pos_of_tag (tag_of nl w)))).
  - unfold ret, normalize. by rewrite clean_steps.
  - intros w. unfold bind. by rewrite pos_tagger_run.
Qed.

Lemma loop_body_mode t g normalizer m :
  g !! "NORMALIZER" = Some normalizer ->
  mode_of normalizer = Some m ->
  (m = Lemma -> tags_words nl) ->
  loop_body nl t g = (inr (normalize nl m t), g).
Proof.
  intros Hg Hm Htag. unfold mode_of in Hm.
  destruct (String.eqb normalizer "stem") eqn:Hs.
  - apply String.eqb_eq in Hs. subst. injection Hm as <-. by apply loop_body_stem.
  - destruct (String.eqb normalizer "lemma") eqn:Hl; [|discriminate].
    apply String.eqb_eq in Hl. subst. injection Hm as <-. by apply loop_body_lemma; auto.
Qed.

Lemma loop_body_other t g normalizer :
  g !! "NORMALIZER" = Some normalizer ->
  normalizer <> "stem" -> normalizer <> "lemma" ->
  loop_body nl t g = (inl (Exception normalizer_message), g).
Proof.
  intros Hg Hs Hl. unfold loop_body, bind, getitem. rewrite Hg.
  apply String.eqb_neq in Hs, Hl. by rewrite Hs, Hl.
Qed.

Lemma for_text_in_reads_only corpus acc :
  reads_only "NORMALIZER" (for_text_in nl corpus acc).
Proof.
  revert acc. induction corpus as [|t rest IH]; intros acc; simpl.
  - apply reads_only_ret.
  - apply reads_only_bind; [apply loop_body_reads_only|]. intros t'. apply IH.
Qed.

Lemma for_text_in_run (f : text -> text) corpus acc g :
  (forall t, loop_body nl t g = (inr (f t), g)) ->
  for_text_in nl corpus acc g = (inr (acc ++ map f corpus), g).
Proof.
  intros Hf. revert acc. induction corpus as [|t rest IH]; intros acc; simpl.
  - by rewrite app_nil_r.
  - unfold bind. rewrite Hf, IH. by rewrite <- app_assoc.
Qed.

Lemma for_text_in_length corpus acc g out :
  fst (for_text_in nl corpus acc g) = inr out ->
  length out = length acc + length corpus.
Proof.
  revert acc g. induction corpus as [|t rest IH]; intros acc g; simpl.
  - intros [= <-]. lia.
  - unfold bind. destruct (loop_body nl t g) as [[e|t'] g1]; [discriminate|].
    intros H. apply IH in H. rewrite length_app in H. simpl in H. lia.
Qed.

Lemma for_text_in_each corpus acc g out :
  fst (for_text_in nl corpus acc g) = inr out ->
  exists new, out = acc ++ new
              /\ Forall2 (fun t t' => fst (loop_body nl t g) = inr t') corpus new.
Proof.
  revert acc. induction corpus as [|t rest IH]; intros acc; simpl.
  - intros [= <-]. exists []. by rewrite app_nil_r.
  - unfold bind.
    pose proof (loop_body_reads_only t g g eq_refl) as [_ Hg].
    destruct (loop_body nl t g) as [[e|t'] g1] eqn:Hbody; [discriminate|].
    simpl in Hg. subst g1. intros H. apply IH in H as (new & -> & Hnew).
    exists (t' :: new). rewrite <- app_assoc. split; [reflexivity|].
    constructor; [by rewrite Hbody|done].
Qed.

Lemma preprocessor_reads_only corpus : reads_only "NORMALIZER" (preprocessor nl corpus).
Proof.
  unfold preprocessor. apply reads_only_bind; [apply for_text_in_reads_only|].
  intros out. apply reads_only_ret.
Qed.

Lemma preprocessor_run (f : text -> text) corpus g :
  (forall t, loop_body nl t g = (inr (f t), g)) ->
  preprocessor nl corpus g = (inr (PList (map f (texts_of corpus))), g).
Proof.
  intros Hf. unfold preprocessor, bind.
  change (match corpus with PStr s => [s] | PList l => l end) with (texts_of corpus).
  by rewrite (for_text_in_run f).
Qed.

Lemma preprocessor_raise corpus g e :
  texts_of corpus <> [] ->
  (forall t, loop_body nl t g = (inl e, g)) ->
  preprocessor nl corpus g = (inl e, g).
Proof.
  intros Hne Hf. unfold preprocessor, bind.
  change (match corpus with PStr s => [s] | PList l => l end) with (texts_of corpus).
  destruct (texts_of corpus) as [|t rest]; [done|].
  simpl. unfold bind. by rewrite Hf.
Qed.

(** An empty batch never reaches the check of the mode. *)
Lemma preprocessor_empty_batch g : preprocessor nl (PList []) g = (inr (PList []), g).
Proof. reflexivity. Qed.

(** C3: with [CONFIG["NORMALIZER"]] set to anything but ["stem"] or
    ["lemma"], [preprocessor] raises its configuration exception on every
    input that holds a text; with ["stem"] it returns, and so it does with
    ["lemma"] (given that [pos_tag] tags the words it is asked about). *)
Theorem preprocessor_checks_mode corpus CONFIG normalizer :
  CONFIG !! "NORMALIZER" = Some normalizer ->
  texts_of corpus <> [] ->
  (normalizer <> "stem" -> normalizer <> "lemma" ->
   fst (preprocessor nl corpus CONFIG) = inl (Exception normalizer_message))
  /\ (normalizer = "stem" -> exists out, fst (preprocessor nl corpus CONFIG) = inr out)
  /\ (normalizer = "lemma" -> tags_words nl ->
      exists out, fst (preprocessor nl corpus CONFIG) = inr out).
Proof.
  intros Hg Hne. split; [|split].
  - intros Hs Hl. rewrite (preprocessor_raise corpus CONFIG (Exception normalizer_message)); auto.
    intros t. by apply (loop_body_other t CONFIG normalizer).
  - intros ->. eexists. rewrite (preprocessor_run (normalize nl Stem)); [reflexivity|].
    intros t. by apply loop_body_stem.
  - intros -> Hnl. eexists. rewrite (preprocessor_run (normalize nl Lemma)); [reflexivity|].
    intros t. by apply loop_body_lemma.
Qed.

(** C4, as the code has it: the result is always a list, with one entry
    per input text (one entry for a bare string); the call leaves [CONFIG]
    as it is, and its outcome is a function of the input and of
    [CONFIG["NORMALIZER"]] alone. *)
Theorem preprocessor_list_shaped_and_pure corpus CONFIG :
  (forall out, fst (preprocessor nl corpus CONFIG) = inr out ->
               shape_of out = ShapeList (length (texts_of corpus)))
  /\ snd (preprocessor nl corpus CONFIG) = CONFIG
  /\ (forall CONFIG', CONFIG !! "NORMALIZER" = CONFIG' !! "NORMALIZER" ->
                 fst (preprocessor nl corpus CONFIG) = fst (preprocessor nl corpus CONFIG')).
Proof.
  split; [|split].
  - intros out. unfold preprocessor, bind.
    change (match corpus with PStr s => [s] | PList l => l end) with (texts_of corpus).
    pose proof (for_text_in_length (texts_of corpus) [] CONFIG) as Hlen.
    destruct (for_text_in nl (texts_of corpus) [] CONFIG) as [[e|l] g1]; [discriminate|].
    intros [= <-]. simpl. f_equal. apply (Hlen l eq_refl).
  - apply (preprocessor_reads_only corpus CONFIG CONFIG eq_refl).
  - intros CONFIG' H. apply (preprocessor_reads_only corpus CONFIG CONFIG' H).
Qed.

(** C5: under a recognized mode the text a call returns for an input text
    is made by these steps in this order: strip the markup tags, collapse
    the runs of non-alphanumeric characters to single spaces, collapse the
    whitespace, tokenize, then stem each token (mode ["stem"]) or
    lemmatize it (mode ["lemma"]), never both, and join the results with
    spaces; lemmatization passes the part of speech of the token's tag,
    which is the noun for every tag that does not start with j, v or r. *)
Theorem preprocessor_steps corpus CONFIG normalizer m :
  CONFIG !! "NORMALIZER" = Some normalizer ->
  mode_of normalizer = Some m ->
  (m = Lemma -> tags_words nl) ->
  fst (preprocessor nl corpus CONFIG)
  = inr (PList
           (map (fun t =>
                   let stripped := strip_markup t in
                   let separated := collapse_non_alphanumeric stripped in
                   let collapsed := collapse_whitespace separated in
                   let tokens := word_tokenize nl collapsed in
                   join [space]
                     (match m with
                      | Stem => map (porter_stem nl) tokens
                      | Lemma =>
                          map (fun w =>
                                 wordnet_lemmatize nl w (pos_of_tag (tag_of nl w)))
                            tokens
                      end))
              (texts_of corpus)))
  /\ (tags_words nl -> forall w, fst (pos_tagger nl w CONFIG) = inr (pos_of_tag (tag_of nl w)))
  /\ (forall c tag, lower c <> 106%N -> lower c <> 118%N -> lower c <> 114%N ->
                    pos_of_tag (c :: tag) = NOUN).
Proof.
  intros Hg Hm Htag. split; [|split].
  - rewrite (preprocessor_run (normalize nl m)).
    + simpl. do 2 f_equal. apply map_ext. intros t. unfold normalize. by destruct m.
    + intros t. by apply (loop_body_mode t CONFIG normalizer m).
  - intros Hnl w. by rewrite pos_tagger_run.
  - intros c tag Hj Hv Hr. unfold pos_of_tag.
    apply N.eqb_neq in Hj, Hv, Hr. by rewrite Hj, Hv, Hr.
Qed.

(** C9: a bare string comes back as a one-element list that holds the
    text the loop body makes of it, never as a bare string; a list comes
    back as a list with one text per input text, in input order. *)
Theorem preprocessor_wraps_string CONFIG normalizer m :
  CONFIG !! "NORMALIZER" = Some normalizer ->
  mode_of normalizer = Some m ->
  (m = Lemma -> tags_words nl) ->
  (forall s, exists t, fst (loop_body nl s CONFIG) = inr t
                       /\ fst (preprocessor nl (PStr s) CONFIG) = inr (PList [t]))
  /\ (forall s t, fst (preprocessor nl (PStr s) CONFIG) <> inr (PStr t))
  /\ (forall l, exists out,
        fst (preprocessor nl (PList l) CONFIG) = inr (PList out)
        /\ Forall2 (fun s t => fst (loop_body nl s CONFIG) = inr t) l out).
Proof.
  intros Hg Hm Htag.
  assert (Hbody : forall t, loop_body nl t CONFIG = (inr (normalize nl m t), CONFIG)).
  { intros t. by apply (loop_body_mode t CONFIG normalizer m). }
  split; [|split].
  - intros s. exists (normalize nl m s). rewrite Hbody.
    by rewrite (preprocessor_run (normalize nl m)).
  - intros s t. by rewrite (preprocessor_run (normalize nl m)).
  - intros l. exists (map (normalize nl m) l).
    rewrite (preprocessor_run (normalize nl m)); [|done]. split; [reflexivity|].
    induction l; constructor; [by rewrite Hbody|done].
Qed.

Lemma collapse_runs_outside c sep b s :
  Forall (fun x => c x = false \/ x = sep) (collapse_runs c sep b s).
Proof.
  revert b. induction s as [|x r IH]; intros b; simpl; [constructor|].
  destruct (c x) eqn:Hx; [destruct b|]; auto.
Qed.

Lemma collapse_runs_keeps (P : char -> Prop) c sep b s :
  P sep -> Forall P s -> Forall P (collapse_runs c sep b s).
Proof.
  intros Hsep Hs. revert b. induction Hs as [|x r Hx Hr IH]; intros b; simpl; [constructor|].
  destruct (c x); [destruct b|]; auto.
Qed.

Lemma clean_alnum_or_space t : Forall alnum_or_space (clean t).
Proof.
  rewrite clean_steps. apply collapse_runs_keeps; [by right|].
  eapply Forall_impl; [apply collapse_runs_outside|].
  intros x [Hx| ->]; [left; by apply negb_false_iff|by right].
Qed.

Lemma join_alnum_or_space ws :
  Forall alnum_word ws -> Forall alnum_or_space (join [space] ws).
Proof.
  induction 1 as [|w ws Hw Hws IH]; [constructor|].
  assert (Hw' : Forall alnum_or_space w).
  { eapply Forall_impl; [exact Hw|]. intros x Hx. by left. }
  destruct ws as [|w2 ws]; [exact Hw'|].
  change (join [space] (w :: w2 :: ws)) with (w ++ [space] ++ join [space] (w2 :: ws)).
  apply Forall_app. split; [exact Hw'|].
  apply Forall_app. split; [|exact IH]. constructor; [by right|constructor].
Qed.

Lemma normalize_alnum_or_space m t :
  keeps_alnum nl -> Forall alnum_or_space (normalize nl m t).
Proof.
  intros Hnl. unfold normalize. rewrite <- clean_steps.
  pose proof (tokens_alnum nl Hnl (clean t) (clean_alnum_or_space t)) as Htok.
  destruct m; apply join_alnum_or_space; rewrite List.Forall_map;
    (eapply Forall_impl; [exact Htok|]); intros w Hw; simpl.
  - by apply stem_alnum.
  - by apply lemma_alnum.
Qed.

(** C10: under a recognized mode every text of the output is made of
    ASCII letters, ASCII digits and spaces only; so neither [<] nor [>],
    hence no tag, is left in it. *)
Theorem preprocessor_output_alphanumeric corpus CONFIG normalizer m :
  keeps_alnum nl ->
  CONFIG !! "NORMALIZER" = Some normalizer ->
  mode_of normalizer = Some m ->
  (m = Lemma -> tags_words nl) ->
  exists out,
    fst (preprocessor nl corpus CONFIG) = inr (PList out)
    /\ Forall (Forall alnum_or_space) out
    /\ Forall (fun t => (lt_sign ∉ t) /\ (gt_sign ∉ t)) out.
Proof.
  intros Hnl Hg Hm Htag.
  exists (map (normalize nl m) (texts_of corpus)).
  rewrite (preprocessor_run (normalize nl m));
    [|intros t; by apply (loop_body_mode t CONFIG normalizer m)].
  assert (Hall : Forall (Forall alnum_or_space) (map (normalize nl m) (texts_of corpus))).
  { rewrite List.Forall_map. apply Forall_forall. intros t _.
    by apply normalize_alnum_or_space. }
  split; [reflexivity|]. split; [exact Hall|].
  eapply Forall_impl; [exact Hall|]. intros t Ht.
  split; intros Hin; rewrite Forall_forall in Ht; apply Ht in Hin;
    destruct Hin as [Hin|Hin]; vm_compute in Hin; discriminate.
Qed.

End WithNltk.

(** *** The stand-in for NLTK meets what is asked of NLTK *)

Lemma lower_alnum c : is_alnum c = true -> is_alnum (lower c) = true.
Proof.
  unfold lower. destruct (in_range 65 90 c) eqn:Hup; [|done].
  intros _. unfold in_range in Hup. apply andb_true_iff in Hup as [Hlo Hhi].
  apply N.leb_le in Hlo, Hhi. unfold is_alnum, in_range.
  assert (H1 : (97 <=? c + 32)%N = true) by (apply N.leb_le; lia).
  assert (H2 : (c + 32 <=? 122)%N = true) by (apply N.leb_le; lia).
  by rewrite H1, H2.
Qed.

Lemma split_words_alnum acc s :
  alnum_word acc -> Forall alnum_or_space s -> Forall alnum_word (split_words acc s).
Proof.
  intros Hacc Hs. revert acc Hacc.
  induction Hs as [|c r Hc Hr IH]; intros acc Hacc; simpl.
  - destruct acc; [constructor|]. constructor; [|constructor].
    by apply Forall_rev.
  - destruct (c =? space)%N eqn:Hsp.
    + destruct acc; [apply IH; constructor|].
      constructor; [by apply Forall_rev|apply IH; constructor].
    + apply IH. constructor; [|exact Hacc].
      destruct Hc as [Hc| ->]; [exact Hc|]. by rewrite N.eqb_refl in Hsp.
Qed.

Lemma plain_nltk_tags_words : tags_words plain_nltk.
Proof. intros w. by exists w, 78%N, [78%N], []. Qed.

Lemma plain_nltk_keeps_alnum : keeps_alnum plain_nltk.
Proof.
  split; simpl.
  - intros t Ht. apply split_words_alnum; [constructor|exact Ht].
  - intros w Hw. unfold alnum_word. rewrite List.Forall_map.
    eapply Forall_impl; [exact Hw|]. apply lower_alnum.
  - intros w _ Hw. unfold alnum_word. rewrite List.Forall_map.
    eapply Forall_impl; [exact Hw|]. apply lower_alnum.
Qed.

(** *** Concrete runs *)

Example preprocessor_review_stem :
  fst (preprocessor plain_nltk (PStr review) (config "stem"))
  = inr (PList [str "a good film good cast"]).
Proof. vm_compute. reflexivity. Qed.

Example preprocessor_review_batch :
  fst (preprocessor plain_nltk (PList [review; str "3/10 <i>bad</i>"]) (config "lemma"))
  = inr (PList [str "a good film good cast"; str "3 10 bad"]).
Proof. vm_compute. reflexivity. Qed.

Lemma preprocessor_checks_mode_witness :
  fst (preprocessor plain_nltk (PStr review) (config "snowball"))
  = inl (Exception normalizer_message)
  /\ (exists out, fst (preprocessor plain_nltk (PStr review) (config "stem")) = inr out)
  /\ (exists out, fst (preprocessor plain_nltk (PStr review) (config "lemma")) = inr out).
Proof.
  split; [|split].
  - destruct (preprocessor_checks_mode plain_nltk (PStr review) (config "snowball")
                "snowball") as (Hraise & _); [reflexivity|discriminate|].
    apply Hraise; discriminate.
  - destruct (preprocessor_checks_mode plain_nltk (PStr review) (config "stem") "stem")
      as (_ & Hstem & _); [reflexivity|discriminate|].
    apply Hstem. reflexivity.
  - destruct (preprocessor_checks_mode plain_nltk (PStr review) (config "lemma") "lemma")
      as (_ & _ & Hlemma); [reflexivity|discriminate|].
    apply Hlemma; [reflexivity|exact plain_nltk_tags_words].
Defined.

(** C4 as stated fails: a bare string does not come back as a bare
    string. *)
Lemma preprocessor_shape_counterexample :
  fst (preprocessor plain_nltk (PStr review) (config "stem"))
  = inr (PList [str "a good film good cast"])
  /\ shape_of (PList [str "a good film good cast"]) <> shape_of (PStr review).
Proof. split; [vm_compute; reflexivity|discriminate]. Qed.

Lemma preprocessor_list_shaped_and_pure_witness :
  shape_of (PList [str "a good film good cast"]) = ShapeList 1
  /\ snd (preprocessor plain_nltk (PStr review) (config "stem")) = config "stem"
  /\ fst (preprocessor plain_nltk (PStr review) (config "stem"))
     = fst (preprocessor plain_nltk (PStr review) (<["SEED" := "158"]> (config "stem"))).
Proof.
  destruct (preprocessor_list_shaped_and_pure plain_nltk (PStr review) (config "stem"))
    as (Hshape & Hsame & Hmode).
  split; [|split].
  - apply (Hshape (PList [str "a good film good cast"])). vm_compute. reflexivity.
  - exact Hsame.
  - apply Hmode. vm_compute. reflexivity.
Defined.

Lemma preprocessor_steps_witness :
  fst (preprocessor plain_nltk (PList [review; str "3/10 <i>bad</i>"]) (config "lemma"))
  = inr (PList [str "a good film good cast"; str "3 10 bad"]).
Proof.
  destruct (preprocessor_steps plain_nltk (PList [review; str "3/10 <i>bad</i>"])
              (config "lemma") "lemma" Lemma)
    as (Hsteps & _); [reflexivity|reflexivity|intros _; exact plain_nltk_tags_words|].
  rewrite Hsteps. vm_compute. reflexivity.
Defined.

Lemma preprocessor_wraps_string_witness :
  exists t, fst (loop_body plain_nltk review (config "stem")) = inr t
            /\ fst (preprocessor plain_nltk (PStr review) (config "stem")) = inr (PList [t]).
Proof.
  destruct (preprocessor_wraps_string plain_nltk (config "stem") "stem" Stem)
    as (Hstr & _); [reflexivity|reflexivity|discriminate|].
  exact (Hstr review).
Defined.

Lemma preprocessor_output_alphanumeric_witness :
  exists out,
    fst (preprocessor plain_nltk (PList [review; str "3/10 <i>bad</i>"]) (config "stem"))
    = inr (PList out)
    /\ Forall (Forall alnum_or_space) out
    /\ Forall (fun t => (lt_sign ∉ t) /\ (gt_sign ∉ t)) out.
Proof.
  apply (preprocessor_output_alphanumeric plain_nltk
           (PList [review; str "3/10 <i>bad</i>"]) (config "stem") "stem" Stem);
    [exact plain_nltk_keeps_alnum|reflexivity|reflexivity|discriminate].
Defined.

(** Without [CONFIG["NORMALIZER"]] the subscript raises. *)
Example preprocessor_unset :
  fst (preprocessor plain_nltk (PStr review) ∅) = inl (KeyError "NORMALIZER").
Proof. vm_compute. reflexivity. Qed.

Example sub_html_tag_review :
  Re.sub html_tag [] (str "a<br />b <> c<d x<<e>f>y < z > w") = str "ab <> cf>y  w".
Proof. vm_compute. reflexivity. Qed.

Example sub_non_alphanumeric_review :
  Re.sub non_alphanumeric (str " ") (str "it's 3/10, ok!!") = str "it s 3 10 ok ".
Proof. vm_compute. reflexivity. Qed.

(** *** The cleaning steps applied twice *)

Lemma collapse_runs_absorb (c1 c2 : char -> bool) sep s :
  c2 sep = true -> (forall x, c2 x = true -> c1 x = true) ->
  collapse_runs c2 sep false (collapse_runs c1 sep false s) = collapse_runs c1 sep false s
  /\ collapse_runs c2 sep false (collapse_runs c1 sep true s) = collapse_runs c1 sep true s
  /\ collapse_runs c2 sep true (collapse_runs c1 sep true s) = collapse_runs c1 sep true s.
Proof.
  intros Hsep Hsub. induction s as [|x r (IH1 & IH2 & IH3)]; [done|].
  simpl. destruct (c1 x) eqn:Hx1.
  - simpl. rewrite Hsep. by rewrite IH3.
  - assert (Hx2 : c2 x = false).
    { destruct (c2 x) eqn:Hx2; [|done]. apply Hsub in Hx2. congruence. }
    simpl. rewrite Hx2. by rewrite IH1.
Qed.

Lemma is_space_not_alnum x : is_space x = true -> negb (is_alnum x) = true.
Proof.
  intros Hsp. apply negb_true_iff. destruct (is_alnum x) eqn:Hal; [|done].
  exfalso. unfold is_space, is_alnum, in_range in *.
  rewrite !orb_true_iff, !andb_true_iff, !N.leb_le in Hal.
  rewrite !orb_true_iff, !andb_true_iff, !N.leb_le, !N.eqb_eq in Hsp.
  lia.
Qed.

(** After the non-alphanumeric runs are collapsed there is no whitespace
    left to collapse. *)
Lemma whitespace_already_collapsed s :
  collapse_whitespace (collapse_non_alphanumeric s) = collapse_non_alphanumeric s.
Proof.
  apply (collapse_runs_absorb (fun c => negb (is_alnum c)) is_space space s);
    [reflexivity|apply is_space_not_alnum].
Qed.

Lemma collapse_non_alphanumeric_twice s :
  collapse_non_alphanumeric (collapse_non_alphanumeric s) = collapse_non_alphanumeric s.
Proof.
  apply (collapse_runs_absorb (fun c => negb (is_alnum c)) (fun c => negb (is_alnum c))
           space s); [reflexivity|done].
Qed.

Lemma strip_markup_upto_no_lt fuel s : lt_sign ∉ s -> strip_markup_upto fuel s = s.
Proof.
  revert s. induction fuel as [|fuel IH]; intros s Hs; [done|].
  destruct s as [|c r]; [done|]. simpl.
  destruct (c =? lt_sign)%N eqn:Hc.
  - apply N.eqb_eq in Hc. subst. exfalso. apply Hs. by left.
  - f_equal. apply IH. intros Hin. apply Hs. by right.
Qed.

(** The three substitutions change nothing in a text they have already
    been applied to. *)
Lemma clean_twice t : clean (clean t) = clean t.
Proof.
  assert (Hlt : lt_sign ∉ clean t).
  { intros Hin. pose proof (clean_alnum_or_space t) as Hall.
    rewrite Forall_forall in Hall. apply Hall in Hin as [Hin|Hin];
      vm_compute in Hin; discriminate. }
  rewrite (clean_steps (clean t)). unfold strip_markup.
  rewrite strip_markup_upto_no_lt by exact Hlt.
  rewrite clean_steps, !whitespace_already_collapsed.
  apply collapse_non_alphanumeric_twice.
Qed.

End NormalizerFacts.

(** ** The experiment tracker *)

Module TrackerFacts.
Import Tracker.

(** *** The order of the search *)

Ltac order_cases :=
  repeat match goal with
         | |- context [metric ?k ?r] => destruct (metric k r)
         end;
  repeat match goal with
         | |- context [(?a ?= ?b)%Q] => destruct (Qcompare_spec a b)
         end;
  rewrite ?Z.leb_le; intros; try done; try lia; try (exfalso; lra).

Lemma before_total order_by : Total (before order_by).
Proof.
  intros r1 r2. destruct order_by as [key []]; simpl; unfold before_asc, before_desc.
  - order_cases; rewrite ?Z.leb_le; auto; lia.
  - order_cases; rewrite ?Z.leb_le; auto; lia.
Qed.

Lemma before_transitive order_by : Transitive (before order_by).
Proof.
  intros r1 r2 r3. destruct order_by as [key []]; simpl; unfold before_asc, before_desc;
    order_cases.
Qed.

Lemma before_accuracy_order r1 r2 :
  well_formed r1 -> well_formed r2 ->
  before ("accuracy", DESC) r1 r2 -> accuracy_order r1 r2.
Proof.
  intros [_ [a Ha]] [_ [b Hb]]. unfold accuracy_order, accuracy. simpl.
  unfold before_desc. rewrite Ha, Hb. simpl.
  destruct (Qcompare_spec a b); rewrite ?Z.leb_le; intros; try done; auto.
Qed.

Lemma strongly_sorted_accuracy_order runs :
  Forall well_formed runs ->
  StronglySorted (before ("accuracy", DESC)) runs ->
  StronglySorted accuracy_order runs.
Proof.
  intros Hwf Hs. induction Hs as [|r runs Hs IH Hr]; [constructor|].
  apply Forall_cons in Hwf as [Hr_wf Hwf]. constructor; [by apply IH|].
  rewrite Forall_forall in *. intros r' Hin.
  apply before_accuracy_order; auto.
Qed.

(** *** [get_top_runs] *)

Lemma for_run_in_ids runs run_ids :
  Forall (fun r => is_Some (tags (data r) !! "model_type")) runs ->
  for_run_in runs run_ids = inr (run_ids ++ map (fun r => run_id (info r)) runs).
Proof.
  intros Hruns. revert run_ids.
  induction Hruns as [|r runs [ty Hty] Hruns IH]; intros run_ids; simpl.
  - by rewrite app_nil_r.
  - unfold subscript. rewrite Hty. simpl. rewrite IH. by rewrite <- app_assoc.
Qed.

(** Whatever the client answers, [get_top_runs] hands back the ids of
    the answer in the order of the answer. *)
Lemma get_top_runs_keeps_order client experiment_id max_results runs :
  search_runs client (pretty experiment_id) (fun _ => true) ACTIVE_ONLY max_results
    ("accuracy", DESC) = inr runs ->
  Forall (fun r => is_Some (tags (data r) !! "model_type")) runs ->
  get_top_runs client experiment_id max_results
  = inr (map (fun r => run_id (info r)) runs).
Proof.
  intros Hsearch Htags. unfold get_top_runs. rewrite Hsearch. simpl.
  by rewrite for_run_in_ids.
Qed.

Lemma selected_well_formed store experiment_ids keep v order_by :
  Forall well_formed store ->
  Forall well_formed
    (merge_sort (before order_by) (List.filter (selected experiment_ids keep v) store)).
Proof.
  intros Hwf. rewrite merge_sort_Permutation.
  rewrite Forall_forall in *. intros r Hin.
  apply list_elem_of_In, filter_In in Hin as [Hin _]. by apply Hwf, list_elem_of_In.
Qed.

(** C1: over the tracker's search, [get_top_runs] returns the ids of at
    most [max_results] runs of the experiment, a prefix of all of them put
    in descending order of accuracy with ties broken by earliest
    [start_time]; and for Run Records with accuracies 0.75, 0.81 and 0.80
    it returns the three ids in the order 0.81, 0.80, 0.75. *)
Theorem get_top_runs_descending :
  (forall store experiment_id max_results,
     Forall well_formed store ->
     exists runs rest,
       get_top_runs (client_of store) experiment_id max_results
       = inr (map (fun r => run_id (info r)) runs)
       /\ runs ++ rest
          ≡ₚ List.filter (selected (pretty experiment_id) (fun _ => true) ACTIVE_ONLY) store
       /\ StronglySorted accuracy_order (runs ++ rest)
       /\ length runs = min max_results (length (runs ++ rest)))
  /\ get_top_runs (client_of three_runs) 1 3 = inr ["run-081"; "run-080"; "run-075"].
Proof.
  split; [|vm_compute; reflexivity].
  intros store experiment_id max_results Hwf.
  set (sorted := merge_sort (before ("accuracy", DESC))
                   (List.filter (selected (pretty experiment_id) (fun _ => true) ACTIVE_ONLY)
                      store)).
  assert (Hsorted_wf : Forall well_formed sorted) by by apply selected_well_formed.
  exists (take max_results sorted), (drop max_results sorted).
  rewrite take_drop. split; [|split; [|split]].
  - apply get_top_runs_keeps_order; [reflexivity|].
    apply Forall_take. eapply Forall_impl; [exact Hsorted_wf|]. by intros r [Htag _].
  - apply merge_sort_Permutation.
  - apply strongly_sorted_accuracy_order; [exact Hsorted_wf|].
    apply (@StronglySorted_merge_sort _ _ _ (before_transitive _) (before_total _)).
  - apply length_take.
Qed.

Lemma get_top_runs_descending_witness :
  exists runs rest,
    get_top_runs (client_of tied_runs) 1 2 = inr (map (fun r => run_id (info r)) runs)
    /\ runs ++ rest ≡ₚ List.filter (selected "1" (fun _ => true) ACTIVE_ONLY) tied_runs
    /\ StronglySorted accuracy_order (runs ++ rest)
    /\ length runs = min 2 (length (runs ++ rest)).
Proof.
  destruct get_top_runs_descending as [Hall _].
  apply (Hall tied_runs 1 2).
  repeat constructor; by eexists.
Defined.

Example get_top_runs_notebook :
  get_top_runs (client_of notebook_runs) default_experiment_id default_max_results
  = inr [ "35b60b1ee6054fb5b78084524dfdd307";
          "202d3bb342ce46048b3bf3bf3dda6199";
          "e2eff7851b2947f5aee823422f992585" ].
Proof. vm_compute. reflexivity. Qed.

Example get_top_runs_tie :
  get_top_runs (client_of tied_runs) 1 3 = inr ["best"; "early"; "late"].
Proof. vm_compute. reflexivity. Qed.

(** A run without the [model_type] tag stops [get_top_runs]. *)
Example get_top_runs_untagged :
  get_top_runs
    (client_of [ {| info := {| run_id := "r"; experiment_id := "1"; start_time := 1;
                               lifecycle_stage := active |};
                    data := {| metrics := {[ "accuracy" := (1 # 2)%Q ]}; tags := ∅ |} |} ])
    1 3
  = inl (KeyError "model_type").
Proof. vm_compute. reflexivity. Qed.

(** *** [load_model] *)

Lemma lookup_run_found store id r :
  lookup_run store id = inr r -> r ∈ store /\ run_id (info r) = id.
Proof.
  unfold lookup_run.
  destruct (List.find _ store) as [r'|] eqn:Hfind; [|discriminate].
  intros [= <-]. apply find_some in Hfind as [Hin Heq].
  split; [by apply list_elem_of_In|by apply String.eqb_eq].
Qed.

Lemma lookup_run_unknown store id :
  (forall r, r ∈ store -> run_id (info r) <> id) ->
  lookup_run store id = inl (NotFoundError id).
Proof.
  intros Hnone. unfold lookup_run.
  destruct (List.find _ store) as [r|] eqn:Hfind; [|reflexivity].
  apply find_some in Hfind as [Hin Heq]. apply String.eqb_eq in Heq.
  by apply list_elem_of_In, Hnone in Hin.
Qed.

(** C6: over the tracker's store and artifact files, [load_model] fails
    with a NotFoundError when no run has the given id, and when the run is
    known but nothing, or something corrupted, lies at its artifact path;
    a model it returns is the one pickled at that path for a known run,
    never another one. *)
Theorem load_model_not_found {Model : Type} (store : list Run)
    (files : gmap string (artifact Model)) (id : string) (experiment_id : nat) :
  Forall well_formed store ->
  ((forall r, r ∈ store -> run_id (info r) <> id) ->
   load_model (client_of store) (read_artifact files) id experiment_id
   = inl (NotFoundError id))
  /\ ((exists r, r ∈ store /\ run_id (info r) = id) ->
      files !! artifact_path experiment_id id = None
      \/ files !! artifact_path experiment_id id = Some Corrupted ->
      load_model (client_of store) (read_artifact files) id experiment_id
      = inl (NotFoundError (artifact_path experiment_id id)))
  /\ (forall m,
        load_model (client_of store) (read_artifact files) id experiment_id = inr m ->
        files !! artifact_path experiment_id id = Some (Pickled m)
        /\ exists r, r ∈ store /\ run_id (info r) = id).
Proof.
  intros Hwf. unfold load_model. simpl. split; [|split].
  - intros Hnone. by rewrite lookup_run_unknown.
  - intros (r & Hin & Hid) Hfile.
    destruct (lookup_run store id) as [e|r'] eqn:Hrun.
    + exfalso. unfold lookup_run in Hrun.
      destruct (List.find _ store) eqn:Hfind; [discriminate|].
      apply list_elem_of_In in Hin.
      apply (find_none _ _ Hfind) in Hin. apply String.eqb_neq in Hin. contradiction.
    + simpl. apply lookup_run_found in Hrun as [Hin' _].
      rewrite Forall_forall in Hwf. destruct (Hwf r' Hin') as [[ty Hty] _].
      unfold subscript. rewrite Hty. simpl. unfold read_artifact.
      by destruct Hfile as [-> | ->].
  - intros m. destruct (lookup_run store id) as [e|r] eqn:Hrun; [discriminate|].
    simpl. destruct (subscript (tags (data r)) "model_type"); [discriminate|]. simpl.
    unfold read_artifact.
    destruct (files !! artifact_path experiment_id id) as [[m'|]|]; try discriminate.
    intros [= <-]. split; [reflexivity|].
    exists r. by apply lookup_run_found.
Qed.

Lemma notebook_runs_well_formed : Forall well_formed notebook_runs.
Proof. repeat constructor; by eexists. Qed.

Lemma load_model_not_found_witness :
  load_model (client_of notebook_runs) (read_artifact notebook_files) "0123456789abcdef" 1
  = inl (NotFoundError "0123456789abcdef")
  /\ load_model (client_of notebook_runs) (read_artifact notebook_files)
       "e2eff7851b2947f5aee823422f992585" 1
     = inl (NotFoundError "mlflow/mlruns/1/e2eff7851b2947f5aee823422f992585/artifacts")
  /\ load_model (client_of notebook_runs) (read_artifact notebook_files)
       "202d3bb342ce46048b3bf3bf3dda6199" 1
     = inl (NotFoundError "mlflow/mlruns/1/202d3bb342ce46048b3bf3bf3dda6199/artifacts")
  /\ notebook_files !! artifact_path 1 "35b60b1ee6054fb5b78084524dfdd307"
     = Some (Pickled "MultinomialNB").
Proof.
  split; [|split; [|split]].
  - destruct (load_model_not_found notebook_runs notebook_files "0123456789abcdef" 1
                notebook_runs_well_formed) as (Hunknown & _).
    apply Hunknown. intros r Hin. unfold notebook_runs in Hin.
    rewrite !elem_of_cons in Hin.
    destruct Hin as [-> | [-> | [-> | Hin]]]; [discriminate..|by apply elem_of_nil in Hin].
  - destruct (load_model_not_found notebook_runs notebook_files
                "e2eff7851b2947f5aee823422f992585" 1 notebook_runs_well_formed)
      as (_ & Hmissing & _).
    apply Hmissing; [|left; vm_compute; reflexivity].
    eexists. split; [apply list_elem_of_In; right; left; reflexivity|reflexivity].
  - destruct (load_model_not_found notebook_runs notebook_files
                "202d3bb342ce46048b3bf3bf3dda6199" 1 notebook_runs_well_formed)
      as (_ & Hmissing & _).
    apply Hmissing; [|right; vm_compute; reflexivity].
    eexists. split; [apply list_elem_of_In; right; right; left; reflexivity|reflexivity].
  - destruct (load_model_not_found notebook_runs notebook_files
                "35b60b1ee6054fb5b78084524dfdd307" 1 notebook_runs_well_formed)
      as (_ & _ & Hloaded).
    apply (Hloaded "MultinomialNB"). vm_compute. reflexivity.
Defined.

Example load_model_notebook :
  load_model (client_of notebook_runs) (read_artifact notebook_files)
    "35b60b1ee6054fb5b78084524dfdd307" default_experiment_id
  = inr "MultinomialNB".
Proof. vm_compute. reflexivity. Qed.

End TrackerFacts.

(** ** The corpus partition *)

Module PartitionFacts.
Import Partition.

(** *** Frames *)

Lemma index_read_csv file : index (read_csv file) = seq 0 (length file).
Proof.
  unfold index, read_csv. rewrite fmap_imap.
  rewrite (imap_ext _ (fun i _ => i)); [|done].
  rewrite (imap_seq_0 file (fun i => i)). apply list_fmap_id.
Qed.

Lemma mapM_omap {A B} (f : A -> option B) l k : mapM f l = Some k -> k = omap f l.
Proof.
  rewrite mapM_Some. induction 1 as [|x y l k Hxy _ IH]; [done|].
  csimpl. rewrite Hxy. by f_equal.
Qed.

Lemma mapM_total {A B} (f : A -> option B) l :
  Forall (fun x => is_Some (f x)) l -> mapM f l = Some (omap f l).
Proof.
  intros Hl. apply mapM_Some.
  induction Hl as [|x l [y Hy] _ IH]; [constructor|].
  csimpl. rewrite Hy. by constructor.
Qed.

Lemma omap_lookup_app {A} (l k : list A) (js : list nat) :
  Forall (fun i => i < length l) js ->
  omap (fun i => (l ++ k) !! i) js = omap (fun i => l !! i) js.
Proof.
  induction 1 as [|i js Hi _ IH]; [done|].
  csimpl. rewrite lookup_app_l by done. by rewrite IH.
Qed.

Lemma omap_lookup_seq {A} (l : list A) : omap (fun i => l !! i) (seq 0 (length l)) = l.
Proof.
  induction l as [|x l IH] using rev_ind; [done|].
  rewrite length_app. simpl. rewrite Nat.add_1_r, seq_S, omap_app. csimpl.
  rewrite list_lookup_middle by done. csimpl. f_equal.
  rewrite omap_lookup_app; [exact IH|].
  apply Forall_forall. intros i Hi. apply elem_of_seq in Hi. lia.
Qed.

Lemma filter_all {A} (P : A -> Prop) `{!forall x, Decision (P x)} (l : list A) :
  Forall P l -> filter P l = l.
Proof.
  induction 1 as [|x l Hx _ IH]; [done|].
  rewrite filter_cons, decide_True by done. by rewrite IH.
Qed.

Lemma filter_none {A} (P : A -> Prop) `{!forall x, Decision (P x)} (l : list A) :
  Forall (fun x => ~ P x) l -> filter P l = [].
Proof.
  induction 1 as [|x l Hx _ IH]; [done|].
  by rewrite filter_cons, decide_False.
Qed.

(** *** [sample] followed by [drop] splits a frame in two *)

Section Sampling.

Variable permutation : nat -> nat -> list nat.

Hypothesis permutation_spec : forall seed n, permutation seed n ≡ₚ seq 0 n.

Lemma sample_then_drop n seed (df : DataFrame) :
  n <= length df ->
  NoDup (index df) ->
  exists rows rest,
    sample permutation n seed df = inr rows
    /\ drop (index rows) df = inr rest
    /\ rows ++ rest ≡ₚ df
    /\ length rows = n.
Proof.
  intros Hn Hdup.
  set (perm := permutation seed (length df)).
  assert (Hperm : perm ≡ₚ seq 0 (length df)) by apply permutation_spec.
  set (rows := omap (fun i => df !! i) (take n perm)).
  set (others := omap (fun i => df !! i) (skipn n perm)).
  assert (Hsplit : rows ++ others ≡ₚ df).
  { unfold rows, others. rewrite <- omap_app, take_drop, Hperm. by rewrite omap_lookup_seq. }
  assert (Hvalid : Forall (fun i => is_Some (df !! i)) (take n perm)).
  { apply Forall_forall. intros i Hi. apply lookup_lt_is_Some.
    assert (Hin : i ∈ perm)
      by (rewrite <- (take_drop n perm); apply elem_of_app; by left).
    rewrite Hperm in Hin. apply elem_of_seq in Hin. lia. }
  assert (Hsample : sample permutation n seed df = inr rows).
  { unfold sample. apply Nat.leb_le in Hn. rewrite Hn. fold perm.
    by rewrite (mapM_total _ _ Hvalid). }
  assert (Hdup' : NoDup (index rows ++ index others)).
  { unfold index. rewrite <- fmap_app. by rewrite Hsplit. }
  apply NoDup_app in Hdup' as (_ & Hdisj & _).
  assert (Hfilter : filter (fun r => label r ∉ index rows) df ≡ₚ others).
  { rewrite <- Hsplit, filter_app.
    rewrite (filter_none _ rows), (filter_all _ others); [done| |].
    - apply Forall_forall. intros r Hr Hin. apply (Hdisj (label r)); [done|].
      unfold index. by apply list_elem_of_fmap_2.
    - apply Forall_forall. intros r Hr Hnot. apply Hnot.
      unfold index. by apply list_elem_of_fmap_2. }
  exists rows, (filter (fun r => label r ∉ index rows) df).
  split; [exact Hsample|]. split; [|split].
  - unfold drop.
    assert (Hall : forallb (fun l => existsb (fun r => label r =? l) df) (index rows) = true).
    { apply forallb_forall. intros l Hl. apply existsb_exists.
      apply list_elem_of_In, list_elem_of_fmap in Hl as (r & -> & Hr).
      exists r. split; [|by apply Nat.eqb_eq].
      apply list_elem_of_In. rewrite <- Hsplit. apply elem_of_app. by left. }
    by rewrite Hall.
  - by rewrite Hfilter.
  - unfold rows. rewrite <- (length_mapM _ _ _ (mapM_total _ _ Hvalid)).
    apply length_take_le. rewrite Hperm, length_seq. exact Hn.
Qed.

Lemma read_csv_rows file r :
  r ∈ read_csv file -> exists i rec, file !! i = Some rec /\ r = row_of i rec.
Proof.
  intros Hin. apply list_elem_of_lookup in Hin as [i Hi].
  unfold read_csv in Hi. rewrite list_lookup_imap in Hi.
  destruct (file !! i) as [rec|] eqn:Hrec; [|discriminate].
  injection Hi as <-. by exists i, rec.
Qed.

(** The notebook splits the frame of the file in three. *)
Lemma cells_of_notebook_run a b seed file :
  a + b <= length file ->
  exists tr va rest,
    cells_of_notebook permutation a b seed file
    = inr {| training_set := tr;
             validation_set := va;
             unlabeled_pool := without "sentiment" <$> rest;
             conn := {| Sql.training := cells <$> export tr;
                        Sql.validation := cells <$> export va;
                        Sql.unlabeled_pool :=
                          cells <$> export (without "sentiment" <$> rest) |} |}
    /\ tr ++ va ++ rest ≡ₚ read_csv file
    /\ length tr = a /\ length va = b.
Proof.
  intros Hlen.
  assert (Hdup0 : NoDup (index (read_csv file))).
  { rewrite index_read_csv. apply NoDup_seq. }
  assert (Hlen0 : length (read_csv file) = length file) by apply length_imap.
  destruct (sample_then_drop a seed (read_csv file)) as (tr & df1 & Hs1 & Hd1 & Hp1 & Hl1);
    [lia|done|].
  assert (Hlen1 : length df1 = length file - a).
  { apply Permutation_length in Hp1. rewrite length_app in Hp1. lia. }
  assert (Hdup1 : NoDup (index df1)).
  { unfold index in *. rewrite <- Hp1, fmap_app in Hdup0.
    by apply NoDup_app in Hdup0 as (_ & _ & ?). }
  destruct (sample_then_drop b seed df1) as (va & df2 & Hs2 & Hd2 & Hp2 & Hl2);
    [lia|done|].
  assert (Hp : tr ++ va ++ df2 ≡ₚ read_csv file) by by rewrite Hp2.
  assert (Hcols : drop_columns "sentiment" df2 = inr (without "sentiment" <$> df2)).
  { unfold drop_columns.
    assert (Hall : forallb (fun r => bool_decide (is_Some (column "sentiment" (cells r)))) df2
                   = true).
    { apply forallb_forall. intros r Hr. apply bool_decide_eq_true.
      assert (Hin : r ∈ read_csv file).
      { rewrite <- Hp, !elem_of_app. right. right. by apply list_elem_of_In. }
      apply read_csv_rows in Hin as (i & rec & _ & ->). by eexists. }
    by rewrite Hall. }
  exists tr, va, df2. split; [|done].
  unfold cells_of_notebook. rewrite Hs1. simpl. rewrite Hd1. simpl.
  rewrite Hs2. simpl. rewrite Hd2. simpl. rewrite Hcols. reflexivity.
Qed.

End Sampling.

(** *** The exported tables *)

Lemma cells_export df :
  cells <$> export df
  = (fun r =>
       (fun kv => (if String.eqb (fst kv) "index" then "id" else fst kv, snd kv))
       <$> (("index", CInt (label r)) :: cells r))
    <$> df.
Proof.
  unfold export, rename, reset_index.
  rewrite <- list_fmap_compose, fmap_imap, <- imap_const.
  by apply imap_ext.
Qed.

Lemma omap_fmap_total {A B C} (h : A -> B) (f : B -> option C) (g : A -> C) (l : list A) :
  (forall x, f (h x) = Some (g x)) -> omap f (h <$> l) = g <$> l.
Proof.
  intros Hfg. induction l as [|x l IH]; [done|].
  csimpl. rewrite Hfg. by f_equal.
Qed.

Lemma ids_export df : ids (cells <$> export df) = list_to_set (index df).
Proof.
  unfold ids. f_equal. rewrite cells_export. by apply omap_fmap_total.
Qed.

Lemma index_without name df : index (without name <$> df) = index df.
Proof. unfold index. rewrite <- list_fmap_compose. by apply list_fmap_ext. Qed.

Lemma exported_labelled i rec r :
  r ∈ cells <$> export [row_of i rec] ->
  id_of r = Some i /\ sentiment_of r = Some (CText (snd rec)).
Proof. rewrite cells_export. intros Hin. apply list_elem_of_singleton in Hin as ->. done. Qed.

Lemma exported_unlabelled i rec r :
  r ∈ cells <$> export [without "sentiment" (row_of i rec)] ->
  id_of r = Some i /\ sentiment_of r = None.
Proof. rewrite cells_export. intros Hin. apply list_elem_of_singleton in Hin as ->. done. Qed.

Lemma exported_row df r :
  r ∈ cells <$> export df -> exists row, row ∈ df /\ r ∈ cells <$> export [row].
Proof.
  rewrite !cells_export. intros Hin. apply list_elem_of_fmap in Hin as (row & -> & Hrow).
  exists row. split; [done|]. by apply list_elem_of_singleton.
Qed.

(** *** Disjointness, cover and labels *)

Lemma index_sets_partition (tr va rest : list nat) n :
  tr ++ va ++ rest ≡ₚ seq 0 n ->
  (list_to_set tr : gset nat) ## list_to_set va
  /\ (list_to_set tr : gset nat) ## list_to_set rest
  /\ (list_to_set va : gset nat) ## list_to_set rest
  /\ (list_to_set tr : gset nat) ∪ list_to_set va ∪ list_to_set rest = list_to_set (seq 0 n)
  /\ NoDup tr /\ NoDup va /\ NoDup rest.
Proof.
  intros Hidx.
  assert (Hdup : NoDup (tr ++ va ++ rest)) by (rewrite Hidx; apply NoDup_seq).
  apply NoDup_app in Hdup as (Hdup_tr & Htr_out & Hdup').
  apply NoDup_app in Hdup' as (Hdup_va & Hva_out & Hdup_rest).
  repeat split; try done.
  - intros i Hi Hi'. rewrite elem_of_list_to_set in Hi, Hi'.
    apply (Htr_out i Hi). apply elem_of_app. by left.
  - intros i Hi Hi'. rewrite elem_of_list_to_set in Hi, Hi'.
    apply (Htr_out i Hi). apply elem_of_app. by right.
  - intros i Hi Hi'. rewrite elem_of_list_to_set in Hi, Hi'. by apply (Hva_out i Hi).
  - rewrite <- Hidx. by rewrite !list_to_set_app_L, (assoc_L (∪)).
Qed.

Lemma notebook_indexes permutation a b seed file :
  (forall seed n, permutation seed n ≡ₚ seq 0 n) ->
  a + b <= length file ->
  exists p,
    cells_of_notebook permutation a b seed file = inr p
    /\ index (training_set p) ++ index (validation_set p) ++ index (unlabeled_pool p)
       ≡ₚ seq 0 (length file)
    /\ length (training_set p) = a /\ length (validation_set p) = b
    /\ ids (Sql.training (conn p)) = list_to_set (index (training_set p))
    /\ ids (Sql.validation (conn p)) = list_to_set (index (validation_set p))
    /\ ids (Sql.unlabeled_pool (conn p)) = list_to_set (index (unlabeled_pool p)).
Proof.
  intros Hperm Hlen.
  destruct (cells_of_notebook_run permutation Hperm a b seed file Hlen)
    as (tr & va & rest & Hrun & Hsplit & Htr & Hva).
  eexists. split; [exact Hrun|]. simpl.
  rewrite !ids_export, index_without. repeat split; try done.
  rewrite <- index_read_csv. unfold index. by rewrite <- Hsplit, !fmap_app.
Qed.

(** C2: when the notebook has run, the id sets of the three tables are
    pairwise disjoint and their union is the id set of the corpus; the
    tables hold 5,000, 2,000 and all remaining ids, and each table has the
    ids of the frame it was written from. *)
Theorem partition_disjoint_and_covering permutation file :
  (forall seed n, permutation seed n ≡ₚ seq 0 n) ->
  training_size + validation_size <= length file ->
  exists p,
    notebook permutation file = inr p
    /\ ids (Sql.training (conn p)) ## ids (Sql.validation (conn p))
    /\ ids (Sql.training (conn p)) ## ids (Sql.unlabeled_pool (conn p))
    /\ ids (Sql.validation (conn p)) ## ids (Sql.unlabeled_pool (conn p))
    /\ ids (Sql.training (conn p)) ∪ ids (Sql.validation (conn p))
       ∪ ids (Sql.unlabeled_pool (conn p)) = corpus_ids file
    /\ size (ids (Sql.training (conn p))) = training_size
    /\ size (ids (Sql.validation (conn p))) = validation_size
    /\ size (ids (Sql.unlabeled_pool (conn p)))
       = length file - training_size - validation_size
    /\ ids (Sql.training (conn p)) = list_to_set (index (training_set p))
    /\ ids (Sql.validation (conn p)) = list_to_set (index (validation_set p))
    /\ ids (Sql.unlabeled_pool (conn p)) = list_to_set (index (unlabeled_pool p)).
Proof.
  intros Hperm Hlen.
  destruct (notebook_indexes permutation training_size validation_size random_state file
              Hperm Hlen) as (p & Hrun & Hidx & Htr & Hva & Ht & Hv & Hu).
  exists p. split; [exact Hrun|]. rewrite Ht, Hv, Hu.
  destruct (index_sets_partition _ _ _ _ Hidx) as (H1 & H2 & H3 & H4 & Hd1 & Hd2 & Hd3).
  assert (Hrest : length (unlabeled_pool p) = length file - training_size - validation_size).
  { apply Permutation_length in Hidx. unfold index in Hidx.
    rewrite !length_app, !length_fmap, length_seq in Hidx. lia. }
  rewrite !size_list_to_set by done. unfold index. rewrite !length_fmap.
  repeat split; done.
Qed.

(** C8: when the notebook has run, every record of the training and the
    validation table carries the sentiment of the review of its id, and no
    record of the unlabeled-pool table, nor any row of the unlabeled-pool
    frame, carries a sentiment: a record of the three tables has a label
    exactly when it is not in the unlabeled pool. *)
Theorem partition_labels permutation file :
  (forall seed n, permutation seed n ≡ₚ seq 0 n) ->
  training_size + validation_size <= length file ->
  exists p,
    notebook permutation file = inr p
    /\ (forall r, r ∈ Sql.training (conn p) ++ Sql.validation (conn p) ->
                  exists i rec, file !! i = Some rec /\ id_of r = Some i
                                /\ sentiment_of r = Some (CText (snd rec)))
    /\ (forall r, r ∈ Sql.unlabeled_pool (conn p) -> sentiment_of r = None)
    /\ (forall row, row ∈ unlabeled_pool p -> column "sentiment" (cells row) = None)
    /\ (forall r, r ∈ Sql.training (conn p) ++ Sql.validation (conn p)
                      ++ Sql.unlabeled_pool (conn p) ->
                  is_Some (sentiment_of r) <-> r ∉ Sql.unlabeled_pool (conn p)).
Proof.
  intros Hperm Hlen.
  destruct (cells_of_notebook_run permutation Hperm training_size validation_size
              random_state file Hlen) as (tr & va & rest & Hrun & Hsplit & _).
  eexists. split; [exact Hrun|]. simpl.
  assert (Hrow : forall row, row ∈ tr ++ va ++ rest ->
                             exists i rec, file !! i = Some rec /\ row = row_of i rec).
  { intros row Hin. rewrite Hsplit in Hin. by apply read_csv_rows. }
  assert (Hlabelled :
    forall r, r ∈ (cells <$> export tr) ++ (cells <$> export va) ->
              exists i rec, file !! i = Some rec /\ id_of r = Some i
                            /\ sentiment_of r = Some (CText (snd rec))).
  { intros r Hin.
    assert (Hex : exists row, row ∈ tr ++ va ++ rest /\ r ∈ cells <$> export [row]).
    { apply elem_of_app in Hin as [Hin|Hin]; apply exported_row in Hin as (row & Hrow' & Hr);
        exists row; (split; [|done]); rewrite !elem_of_app; auto. }
    destruct Hex as (row & Hin' & Hr). apply Hrow in Hin' as (i & rec & Hrec & ->).
    exists i, rec. split; [done|]. by apply exported_labelled. }
  assert (Hunlabelled :
    forall r, r ∈ cells <$> export (without "sentiment" <$> rest) -> sentiment_of r = None).
  { intros r Hin. apply exported_row in Hin as (row & Hin & Hr).
    apply list_elem_of_fmap in Hin as (row' & -> & Hin).
    assert (Hin' : row' ∈ tr ++ va ++ rest) by (rewrite !elem_of_app; auto).
    apply Hrow in Hin' as (i & rec & _ & ->). by apply exported_unlabelled in Hr as [_ ?]. }
  split; [exact Hlabelled|]. split; [exact Hunlabelled|]. split.
  - intros row Hin. apply list_elem_of_fmap in Hin as (row' & -> & Hin).
    assert (Hin' : row' ∈ tr ++ va ++ rest) by (rewrite !elem_of_app; auto).
    by apply Hrow in Hin' as (i & rec & _ & ->).
  - intros r Hin. split.
    + intros [s Hs] Hun. apply Hunlabelled in Hun. congruence.
    + intros Hnot. rewrite app_assoc in Hin. apply elem_of_app in Hin as [Hin|Hin]; [|done].
      apply Hlabelled in Hin as (i & rec & _ & _ & ->). by eexists.
Qed.

(** *** The partition along a session *)

Lemma append_partitioned corpus query_batch s :
  partitioned corpus s -> partitioned corpus (append query_batch s).
Proof.
  intros (H1 & H2 & H3 & H4). unfold partitioned, append. simpl.
  assert (Hcases : forall i, i ∈ (list_to_set query_batch : gset nat)
                             \/ i ∉ (list_to_set query_batch : gset nat)).
  { intros i. destruct (decide (i ∈ (list_to_set query_batch : gset nat))); auto. }
  split; [|split; [|split]].
  - intros i Hi Hv. apply elem_of_union in Hi as [Hi|Hi].
    + by apply (H1 i).
    + apply elem_of_intersection in Hi as [Hi _]. by apply (H3 i).
  - intros i Hi Hu. apply elem_of_difference in Hu as [Hu Hnot].
    apply elem_of_union in Hi as [Hi|Hi].
    + by apply (H2 i).
    + apply elem_of_intersection in Hi as [_ Hi]. contradiction.
  - intros i Hv Hu. apply elem_of_difference in Hu as [Hu _]. by apply (H3 i).
  - rewrite <- H4. apply set_eq. intros i.
    rewrite !elem_of_union, elem_of_intersection, elem_of_difference.
    destruct (Hcases i); tauto.
Qed.

(** The pools the notebook leaves stay a partition of the corpus through
    any number of labeling rounds. *)
Lemma session_partitioned permutation file :
  (forall seed n, permutation seed n ≡ₚ seq 0 n) ->
  training_size + validation_size <= length file ->
  exists p,
    notebook permutation file = inr p
    /\ forall rounds : list (list nat),
         partitioned (corpus_ids file)
           (foldl (fun s query_batch => append query_batch s) (loaded (conn p)) rounds).
Proof.
  intros Hperm Hlen.
  destruct (notebook_indexes permutation training_size validation_size random_state file
              Hperm Hlen) as (p & Hrun & Hidx & _ & _ & Ht & Hv & Hu).
  exists p. split; [exact Hrun|]. intros rounds.
  assert (Hinit : partitioned (corpus_ids file) (loaded (conn p))).
  { unfold partitioned, loaded. simpl. rewrite Ht, Hv, Hu.
    destruct (index_sets_partition _ _ _ _ Hidx) as (H1 & H2 & H3 & H4 & _). done. }
  revert Hinit. generalize (loaded (conn p)).
  induction rounds as [|query_batch rounds IH]; intros s Hs; [exact Hs|].
  simpl. apply IH. by apply append_partitioned.
Qed.

(** *** Concrete runs *)

Lemma backwards_spec seed n : backwards seed n ≡ₚ seq 0 n.
Proof. unfold backwards. symmetry. apply Permutation_rev. Qed.

Lemma imdb_large_enough : training_size + validation_size <= length (imdb (N.to_nat 50000)).
Proof. unfold imdb, training_size, validation_size. rewrite length_replicate. lia. Qed.

Lemma partition_disjoint_and_covering_witness :
  exists p,
    notebook backwards (imdb (N.to_nat 50000)) = inr p
    /\ ids (Sql.training (conn p)) ## ids (Sql.validation (conn p))
    /\ ids (Sql.training (conn p)) ## ids (Sql.unlabeled_pool (conn p))
    /\ ids (Sql.validation (conn p)) ## ids (Sql.unlabeled_pool (conn p))
    /\ ids (Sql.training (conn p)) ∪ ids (Sql.validation (conn p))
       ∪ ids (Sql.unlabeled_pool (conn p)) = corpus_ids (imdb (N.to_nat 50000))
    /\ size (ids (Sql.unlabeled_pool (conn p))) = N.to_nat 43000.
Proof.
  destruct (partition_disjoint_and_covering backwards (imdb (N.to_nat 50000))
              backwards_spec imdb_large_enough)
    as (p & Hrun & H1 & H2 & H3 & H4 & _ & _ & H5 & _).
  exists p. split; [exact Hrun|]. split; [exact H1|]. split; [exact H2|].
  split; [exact H3|]. split; [exact H4|].
  rewrite H5. unfold imdb, training_size, validation_size. rewrite length_replicate. lia.
Defined.

Lemma partition_labels_witness :
  exists p,
    notebook backwards (imdb (N.to_nat 50000)) = inr p
    /\ (forall r, r ∈ Sql.unlabeled_pool (conn p) -> sentiment_of r = None)
    /\ (forall r, r ∈ Sql.training (conn p) ++ Sql.validation (conn p)
                      ++ Sql.unlabeled_pool (conn p) ->
                  is_Some (sentiment_of r) <-> r ∉ Sql.unlabeled_pool (conn p)).
Proof.
  destruct (partition_labels backwards (imdb (N.to_nat 50000))
              backwards_spec imdb_large_enough)
    as (p & Hrun & _ & H1 & _ & H2).
  exists p. split; [exact Hrun|]. split; [exact H1|exact H2].
Defined.

(** The same cells on an eight-row file, sampling three and two rows. *)
Example cells_of_notebook_small :
  match cells_of_notebook backwards 3 2 random_state (imdb 8) with
  | inr p => Some (index (training_set p), index (validation_set p),
                   index (unlabeled_pool p))
  | inl _ => None
  end = Some ([7; 6; 5], [4; 3], [0; 1; 2]).
Proof. vm_compute. reflexivity. Qed.

Example cells_of_notebook_small_tables :
  match cells_of_notebook backwards 3 2 random_state (imdb 8) with
  | inr p => Some (omap id_of (Sql.training (conn p)),
                   sentiment_of <$> Sql.validation (conn p),
                   sentiment_of <$> Sql.unlabeled_pool (conn p))
  | inl _ => None
  end = Some ([7; 6; 5],
              [Some (CText (str "negative")); Some (CText (str "negative"))],
              [None; None; None]).
Proof. vm_compute. reflexivity. Qed.

(** A file too short for the two samples stops the notebook. *)
Example cells_of_notebook_short :
  match cells_of_notebook backwards 3 2 random_state (imdb 4) with
  | inr _ => None
  | inl e => Some e
  end = Some ValueError.
Proof. vm_compute. reflexivity. Qed.

End PartitionFacts.

(** * Further properties *)

(** ** The substitutions of [preprocessor] *)

Module CleanFacts.
Import Re Normalizer Shapes ReFacts NormalizerFacts.

Lemma strip_markup_nil : strip_markup [] = [].
Proof. reflexivity. Qed.

Lemma strip_markup_cons c r :
  strip_markup (c :: r)
  = if (c =? lt_sign)%N then
      match tag_after_lt r with
      | Some n => strip_markup (List.skipn n r)
      | None => c :: strip_markup r
      end
    else c :: strip_markup r.
Proof.
  rewrite <- (sub_html_tag (c :: r)). unfold sub. cbn [sub_from]. rewrite match_html_tag.
  destruct (c =? lt_sign)%N; [destruct (tag_after_lt r) as [n|]; simpl|];
    rewrite <- sub_html_tag; unfold sub; [apply sub_from_skipn|reflexivity..].
Qed.

Lemma closing_None s : closing s = None <-> gt_sign ∉ s.
Proof.
  induction s as [|c r IH]; simpl.
  - split; [intros _ Hin; by apply elem_of_nil in Hin|done].
  - destruct (c =? gt_sign)%N eqn:Hc.
    + apply N.eqb_eq in Hc. subst. split; [discriminate|].
      intros Hnot. exfalso. apply Hnot. by left.
    + apply N.eqb_neq in Hc. rewrite not_elem_of_cons, <- IH.
      destruct (closing r); simpl; split; try done; try tauto. by intros [_ ?].
Qed.

Lemma tag_after_lt_no_gt s : gt_sign ∉ s -> tag_after_lt s = None.
Proof.
  destruct s as [|c r]; [done|]. intros Hnot. apply not_elem_of_cons in Hnot as [Hc Hr].
  simpl. assert (Hc' : (c =? gt_sign)%N = false) by (apply N.eqb_neq; congruence).
  rewrite Hc'. apply closing_None in Hr. by rewrite Hr.
Qed.

Lemma strip_markup_no_gt s : gt_sign ∉ s -> strip_markup s = s.
Proof.
  induction s as [|c r IH]; [done|]. intros Hnot.
  pose proof Hnot as Hnot'. apply not_elem_of_cons in Hnot' as [_ Hr].
  rewrite strip_markup_cons, (tag_after_lt_no_gt r Hr), (IH Hr).
  by destruct (c =? lt_sign)%N.
Qed.

Lemma tag_after_lt_strip r : tag_after_lt r = None -> tag_after_lt (strip_markup r) = None.
Proof.
  destruct r as [|c1 r1]; [done|]. simpl.
  destruct (c1 =? gt_sign)%N eqn:Hc.
  - intros _. apply N.eqb_eq in Hc. subst. rewrite strip_markup_cons. by simpl.
  - intros Hclose. destruct (closing r1) eqn:Hr1; [discriminate|].
    apply closing_None in Hr1.
    assert (Hnot : gt_sign ∉ c1 :: r1).
    { apply not_elem_of_cons. split; [|done]. apply N.eqb_neq in Hc. congruence. }
    rewrite (strip_markup_no_gt _ Hnot). by apply tag_after_lt_no_gt.
Qed.

Lemma strip_markup_tagless_upto n s :
  length s <= n ->
  forall pre post, strip_markup s = pre ++ post -> match_items html_tag post = None.
Proof.
  revert s. induction n as [|n IH]; intros s Hlen.
  { destruct s; [|simpl in Hlen; lia]. intros [|??] [|??]; try discriminate. done. }
  destruct s as [|c r]; [intros [|??] [|??]; try discriminate; done|].
  simpl in Hlen. rewrite strip_markup_cons.
  assert (Hcons : forall x out,
            match_items html_tag (x :: out) = None ->
            (forall pre post, out = pre ++ post -> match_items html_tag post = None) ->
            forall pre post, x :: out = pre ++ post -> match_items html_tag post = None).
  { intros x out Hx Hout [|y pre] post Heq; simpl in Heq.
    - by subst.
    - injection Heq as -> ->. by apply (Hout pre post). }
  destruct (c =? lt_sign)%N eqn:Hc.
  - destruct (tag_after_lt r) as [k|] eqn:Htag.
    + apply IH. rewrite length_skipn. lia.
    + apply Hcons; [|apply IH; lia].
      rewrite match_html_tag, Hc. by rewrite tag_after_lt_strip.
  - apply Hcons; [|apply IH; lia]. by rewrite match_html_tag, Hc.
Qed.

Lemma tagless_fixed s :
  (forall pre post, s = pre ++ post -> match_items html_tag post = None) ->
  strip_markup s = s.
Proof.
  induction s as [|c r IH]; [done|]. intros Hs.
  assert (Hr : strip_markup r = r).
  { apply IH. intros pre post ->. by apply (Hs (c :: pre) post). }
  rewrite strip_markup_cons, Hr.
  destruct (c =? lt_sign)%N eqn:Hc; [|done].
  pose proof (Hs [] (c :: r) eq_refl) as Hhead.
  rewrite match_html_tag, Hc in Hhead. by destruct (tag_after_lt r).
Qed.

(** X1: removing the tags is complete.  Nowhere in the text that
    [re.sub(r'<[^>]+>', '', text)] returns does the pattern match again, so
    a second pass changes nothing. *)
Theorem sub_html_tag_complete s :
  (forall pre post, sub html_tag [] s = pre ++ post -> match_items html_tag post = None)
  /\ sub html_tag [] (sub html_tag [] s) = sub html_tag [] s.
Proof.
  rewrite !sub_html_tag.
  assert (Hless : forall pre post,
            strip_markup s = pre ++ post -> match_items html_tag post = None).
  { by apply (strip_markup_tagless_upto (length s)). }
  split; [exact Hless|]. by apply tagless_fixed.
Qed.

(** X2: the third substitution never changes anything.  Once the runs of
    non-alphanumeric characters are single spaces, ["\s+"] only finds single
    spaces and puts a space back. *)
Theorem sub_whitespaces_redundant s :
  sub whitespaces (str " ") (sub non_alphanumeric (str " ") s)
  = sub non_alphanumeric (str " ") s.
Proof.
  rewrite sub_whitespaces, sub_non_alphanumeric. apply whitespace_already_collapsed.
Qed.

Lemma single_spaced_cons c r :
  single_spaced (c :: r)
  = match r with
    | [] => true
    | c2 :: _ => negb ((c =? space)%N && (c2 =? space)%N) && single_spaced r
    end.
Proof. by destruct r. Qed.

Lemma collapse_runs_single_spaced (c : char -> bool) b s :
  c space = true ->
  single_spaced (collapse_runs c space b s) = true
  /\ (forall r, collapse_runs c space true s <> space :: r).
Proof.
  intros Hsp. revert b. induction s as [|x s IH]; intros b; [done|].
  destruct (IH true) as [Htrue Hhead]. destruct (IH false) as [Hfalse _].
  assert (Hx : c x = false -> (x =? space)%N = false).
  { intros Hcx. apply N.eqb_neq. intros ->. congruence. }
  simpl. destruct (c x) eqn:Hcx.
  - split; [|apply Hhead]. destruct b; [exact Htrue|].
    rewrite single_spaced_cons.
    destruct (collapse_runs c space true s) as [|y out] eqn:Hout; [done|].
    rewrite Htrue, andb_true_r. simpl.
    destruct (y =? space)%N eqn:Hy; [|done].
    apply N.eqb_eq in Hy. subst. by destruct (Hhead out).
  - split.
    + rewrite single_spaced_cons. rewrite (Hx eq_refl). simpl.
      by destruct (collapse_runs c space false s).
    + intros r [= -> _]. by rewrite Hsp in Hcx.
Qed.

Lemma collapse_non_alphanumeric_fixed s :
  Forall alnum_or_space s -> single_spaced s = true ->
  collapse_non_alphanumeric s = s
  /\ ((forall r, s <> space :: r) ->
      collapse_runs (fun c => negb (is_alnum c)) space true s = s).
Proof.
  unfold collapse_non_alphanumeric.
  induction 1 as [|x s Hx Hs IH]; [done|]. intros Hsingle.
  rewrite single_spaced_cons in Hsingle.
  assert (Htail : single_spaced s = true).
  { destruct s; [done|]. by apply andb_true_iff in Hsingle as [_ ?]. }
  destruct (IH Htail) as [IH0 IH1]. simpl.
  destruct Hx as [Hx| ->].
  - rewrite Hx. simpl. by rewrite IH0.
  - change (negb (is_alnum space)) with true. cbv iota.
    assert (Hs' : forall r, s <> space :: r).
    { intros r ->. by rewrite N.eqb_refl in Hsingle. }
    rewrite (IH1 Hs'). split; [done|]. intros Hnot. by destruct (Hnot s).
Qed.

(** X3: the texts the three substitutions leave unchanged are exactly the
    texts made of ASCII letters, digits and spaces with no two spaces in a
    row; every text they return is of that kind. *)
Theorem clean_fixed_points t :
  (clean t = t <-> Forall alnum_or_space t /\ single_spaced t = true)
  /\ Forall alnum_or_space (clean t) /\ single_spaced (clean t) = true.
Proof.
  assert (Hshape : forall u, Forall alnum_or_space (clean u) /\ single_spaced (clean u) = true).
  { intros u. split; [apply clean_alnum_or_space|].
    rewrite clean_steps, whitespace_already_collapsed.
    by apply collapse_runs_single_spaced. }
  split; [|apply Hshape]. split.
  - intros Heq. rewrite <- Heq. apply Hshape.
  - intros [Hall Hsingle].
    assert (Hlt : lt_sign ∉ t).
    { intros Hin. rewrite Forall_forall in Hall. apply Hall in Hin as [Hin|Hin];
        vm_compute in Hin; discriminate. }
    rewrite clean_steps, whitespace_already_collapsed. unfold strip_markup.
    rewrite strip_markup_upto_no_lt by exact Hlt.
    by apply collapse_non_alphanumeric_fixed.
Qed.

Lemma collapse_runs_length c sep b s : length (collapse_runs c sep b s) <= length s.
Proof.
  revert b. induction s as [|x s IH]; intros b; simpl; [done|].
  pose proof (IH true). pose proof (IH false).
  destruct (c x); [destruct b|]; simpl; lia.
Qed.

Lemma strip_markup_length_upto n s : length s <= n -> length (strip_markup s) <= length s.
Proof.
  revert s. induction n as [|n IH]; intros s Hlen.
  { destruct s; [done|simpl in Hlen; lia]. }
  destruct s as [|c r]; [done|]. simpl in Hlen. rewrite strip_markup_cons.
  destruct (c =? lt_sign)%N.
  - destruct (tag_after_lt r) as [k|].
    + assert (Hk : length (List.skipn k r) <= length r) by (rewrite length_skipn; lia).
      specialize (IH (List.skipn k r)). simpl. lia.
    + specialize (IH r). simpl. lia.
  - specialize (IH r). simpl. lia.
Qed.

Lemma collapse_runs_keeps_alnum (c : char -> bool) sep b s :
  (forall x, c x = true -> is_alnum x = false) -> is_alnum sep = false ->
  List.filter is_alnum (collapse_runs c sep b s) = List.filter is_alnum s.
Proof.
  intros Hc Hsep. revert b. induction s as [|x s IH]; intros b; [done|].
  simpl. destruct (c x) eqn:Hcx.
  - rewrite (Hc x Hcx). destruct b; simpl; rewrite ?Hsep; apply IH.
  - simpl. by rewrite IH.
Qed.

(** X4: the three substitutions never make a text longer, and once the
    tags are out they neither drop nor reorder a letter or a digit: only
    the separators between them change. *)
Theorem clean_bounded_and_keeps_alnum t :
  length (clean t) <= length t
  /\ List.filter is_alnum (clean t) = List.filter is_alnum (sub html_tag [] t).
Proof.
  rewrite clean_steps, sub_html_tag. split.
  - pose proof (strip_markup_length_upto (length t) t (le_n _)).
    pose proof (collapse_runs_length (fun c => negb (is_alnum c)) space false (strip_markup t)).
    pose proof (collapse_runs_length is_space space false
                  (collapse_non_alphanumeric (strip_markup t))).
    unfold collapse_whitespace, collapse_non_alphanumeric in *. lia.
  - unfold collapse_whitespace, collapse_non_alphanumeric.
    rewrite !collapse_runs_keeps_alnum; try done.
    + intros x Hx. by apply negb_true_iff.
    + intros x Hx. apply is_space_not_alnum in Hx. by apply negb_true_iff.
Qed.

Lemma closing_body b v : gt_sign ∉ b -> closing (b ++ gt_sign :: v) = Some (S (length b)).
Proof.
  induction b as [|c b IH]; [done|]. intros Hnot.
  apply not_elem_of_cons in Hnot as [Hc Hb]. simpl.
  assert (Hc' : (c =? gt_sign)%N = false) by (apply N.eqb_neq; congruence).
  rewrite Hc', (IH Hb). done.
Qed.

Lemma alnum_word_no_lt w : alnum_word w -> lt_sign ∉ w.
Proof.
  intros Hw Hin. unfold alnum_word in Hw. rewrite Forall_forall in Hw.
  apply Hw in Hin. vm_compute in Hin. discriminate.
Qed.

Lemma strip_markup_word_prefix u s : alnum_word u -> strip_markup (u ++ s) = u ++ strip_markup s.
Proof.
  induction 1 as [|c u Hc Hu IH]; [done|]. simpl. rewrite strip_markup_cons, IH.
  destruct (c =? lt_sign)%N eqn:Hlt; [|done].
  apply N.eqb_eq in Hlt. subst. vm_compute in Hc. discriminate.
Qed.

Lemma collapse_non_alphanumeric_word w :
  alnum_word w -> collapse_whitespace (collapse_non_alphanumeric w) = w.
Proof.
  intros Hw. rewrite whitespace_already_collapsed. unfold collapse_non_alphanumeric.
  induction Hw as [|c w Hc Hw IH]; [done|]. simpl. rewrite Hc. simpl. by rewrite IH.
Qed.

(** X5: a tag is replaced by nothing, so two words with only a tag between
    them come out as one word. *)
Theorem clean_joins_words_across_tag u body v :
  alnum_word u -> alnum_word v -> body <> [] -> gt_sign ∉ body ->
  clean (u ++ lt_sign :: body ++ gt_sign :: v) = u ++ v.
Proof.
  intros Hu Hv Hbody Hgt. rewrite clean_steps, strip_markup_word_prefix by done.
  rewrite strip_markup_cons. change (lt_sign =? lt_sign)%N with true. cbv iota.
  destruct body as [|c body]; [done|].
  apply not_elem_of_cons in Hgt as [Hc Hgt].
  assert (Hc' : (c =? gt_sign)%N = false) by (apply N.eqb_neq; congruence).
  assert (Hskip : List.skipn (S (length body)) (body ++ gt_sign :: v) = v).
  { clear. induction body as [|x body IH]; [done|exact IH]. }
  cbn [tag_after_lt app]. rewrite Hc', (closing_body body v Hgt).
  cbn [fmap option_fmap option_map List.skipn]. rewrite Hskip.
  unfold strip_markup at 1. rewrite strip_markup_upto_no_lt by by apply alnum_word_no_lt.
  apply collapse_non_alphanumeric_word. unfold alnum_word. by apply Forall_app.
Qed.

Lemma clean_joins_words_across_tag_witness :
  clean (str "great<br />movie") = str "greatmovie".
Proof.
  apply (clean_joins_words_across_tag (str "great") (str "br /") (str "movie")).
  - unfold alnum_word. repeat constructor.
  - unfold alnum_word. repeat constructor.
  - discriminate.
  - intros Hin. apply list_elem_of_In in Hin. vm_compute in Hin.
    repeat (destruct Hin as [Hin|Hin]; [discriminate|]). exact Hin.
Defined.

End CleanFacts.

(** ** [preprocessor] on batches and on missing pieces *)

Module PreprocessorFacts.
Import Re Normalizer Shapes EffFacts NormalizerFacts.

Section WithNltk.

Variable nl : nltk.

Lemma loop_body_unset t (CONFIG : globals) :
  CONFIG !! "NORMALIZER" = None ->
  loop_body nl t CONFIG = (inl (KeyError "NORMALIZER"), CONFIG).
Proof. intros Hg. unfold loop_body, bind, getitem. by rewrite Hg. Qed.

(** X6: the mode is looked up once per text.  An input without a text
    comes back as the empty list whatever [CONFIG] holds, even nothing or an
    unknown mode; an input with a text raises [KeyError] when
    [CONFIG["NORMALIZER"]] is not set.  [CONFIG] is left as it was. *)
Theorem preprocessor_looks_up_mode_per_text corpus (CONFIG : globals) :
  (texts_of corpus = [] -> preprocessor nl corpus CONFIG = (inr (PList []), CONFIG))
  /\ (texts_of corpus <> [] -> CONFIG !! "NORMALIZER" = None ->
      preprocessor nl corpus CONFIG = (inl (KeyError "NORMALIZER"), CONFIG)).
Proof.
  split.
  - destruct corpus as [s|l]; [discriminate|]. simpl. by intros ->.
  - intros Hne Hg. apply preprocessor_raise; [exact Hne|].
    intros t. by apply loop_body_unset.
Qed.

Lemma for_text_in_acc corpus acc (g : globals) :
  for_text_in nl corpus acc g
  = match for_text_in nl corpus [] g with
    | (inl e, g') => (inl e, g')
    | (inr out, g') => (inr (acc ++ out), g')
    end.
Proof.
  revert acc g. induction corpus as [|t rest IH]; intros acc g; simpl.
  - unfold ret. by rewrite app_nil_r.
  - unfold bind. destruct (loop_body nl t g) as [[e|t'] g1]; [done|].
    rewrite (IH (acc ++ [t'])), (IH ([] ++ [t'])).
    destruct (for_text_in nl rest [] g1) as [[e|out] g2]; [done|].
    simpl. by rewrite <- app_assoc.
Qed.

Lemma for_text_in_app l1 l2 acc (g : globals) :
  for_text_in nl (l1 ++ l2) acc g
  = bind (for_text_in nl l1 acc) (fun out => for_text_in nl l2 out) g.
Proof.
  revert acc g. induction l1 as [|t l1 IH]; intros acc g; simpl; [done|].
  unfold bind. destruct (loop_body nl t g) as [[e|t'] g1]; [reflexivity|].
  rewrite IH. reflexivity.
Qed.

(** X7: a batch can be cut anywhere.  The call on [l1 ++ l2] raises what
    the call on [l1] raises, else what the call on [l2] raises, else it
    returns the two results one after the other. *)
Theorem preprocessor_batches l1 l2 (CONFIG : globals) :
  fst (preprocessor nl (PList (l1 ++ l2)) CONFIG)
  = match fst (preprocessor nl (PList l1) CONFIG) with
    | inl e => inl e
    | inr out1 =>
        match fst (preprocessor nl (PList l2) CONFIG) with
        | inl e => inl e
        | inr out2 => inr (PList (texts_of out1 ++ texts_of out2))
        end
    end.
Proof.
  unfold preprocessor. cbv zeta. unfold bind at 1 2 3.
  rewrite for_text_in_app. unfold bind.
  pose proof (for_text_in_reads_only nl l1 [] CONFIG CONFIG eq_refl) as [_ Hsame].
  destruct (for_text_in nl l1 [] CONFIG) as [[e|out1] g1]; [done|].
  simpl in Hsame. subst g1. rewrite (for_text_in_acc l2 out1).
  destruct (for_text_in nl l2 [] CONFIG) as [[e|out2] g2]; done.
Qed.

Lemma pos_tagger_outcome w (g : globals) :
  (tag_of nl w = [] /\ pos_tagger nl w g = (inl IndexError, g))
  \/ (tag_of nl w <> [] /\ exists pos, pos_tagger nl w g = (inr pos, g)).
Proof.
  unfold pos_tagger, tag_of.
  destruct (pos_tag nl [w]) as [|[w' [|c tag]] rest]; [by left|by left|].
  right. split; [done|]. by eexists.
Qed.

Lemma comprehension_raise {A B} (f : A -> M B) l e (g : globals) :
  (forall x, (exists y, f x g = (inr y, g)) \/ f x g = (inl e, g)) ->
  (exists x, x ∈ l /\ f x g = (inl e, g)) ->
  comprehension f l g = (inl e, g).
Proof.
  intros Hf. induction l as [|x l IH]; intros (x0 & Hin & Hx0).
  { by apply elem_of_nil in Hin. }
  simpl. unfold bind at 1. destruct (Hf x) as [[y Hy]| Hx]; [|by rewrite Hx].
  rewrite Hy. unfold bind at 1. rewrite IH; [done|].
  apply elem_of_cons in Hin as [->|Hin]; [congruence|eauto].
Qed.

Lemma comprehension_outcome {A B} (f : A -> M B) l e (g : globals) :
  (forall x, (exists y, f x g = (inr y, g)) \/ f x g = (inl e, g)) ->
  (exists ys, comprehension f l g = (inr ys, g)) \/ comprehension f l g = (inl e, g).
Proof.
  intros Hf. induction l as [|x l IH]; [left; by eexists|].
  simpl. unfold bind. destruct (Hf x) as [[y Hy]|Hx]; [|rewrite Hx; by right].
  rewrite Hy.
  destruct IH as [[ys Hys]|Hfail]; [rewrite Hys; left; by eexists|rewrite Hfail; by right].
Qed.

Lemma lemmatize_outcome w (g : globals) :
  (exists y, (do pos <- pos_tagger nl w; ret (wordnet_lemmatize nl w pos)) g = (inr y, g))
  \/ (do pos <- pos_tagger nl w; ret (wordnet_lemmatize nl w pos)) g = (inl IndexError, g).
Proof.
  unfold bind.
  destruct (pos_tagger_outcome w g) as [[_ Hw]|[_ [pos Hw]]]; rewrite Hw;
    [by right|left; by eexists].
Qed.

Lemma loop_body_lemma_eq t (g : globals) :
  g !! "NORMALIZER" = Some "lemma" ->
  loop_body nl t g
  = match comprehension
            (fun w => do pos <- pos_tagger nl w; ret (wordnet_lemmatize nl w pos))
            (word_tokenize nl (clean t)) g with
    | (inl e, g') => (inl e, g')
    | (inr ws, g') => (inr (join (str " ") ws), g')
    end.
Proof. intros Hg. unfold loop_body, bind at 1, getitem. rewrite Hg. reflexivity. Qed.

Lemma loop_body_lemma_outcome t (g : globals) :
  g !! "NORMALIZER" = Some "lemma" ->
  (exists t', loop_body nl t g = (inr t', g)) \/ loop_body nl t g = (inl IndexError, g).
Proof.
  intros Hg. rewrite (loop_body_lemma_eq t g Hg).
  destruct (comprehension_outcome
              (fun w => do pos <- pos_tagger nl w; ret (wordnet_lemmatize nl w pos))
              (word_tokenize nl (clean t)) IndexError g (fun w => lemmatize_outcome w g))
    as [[ys Hys]|Hfail]; [rewrite Hys; left; by eexists|rewrite Hfail; by right].
Qed.

Lemma loop_body_untagged t w (g : globals) :
  g !! "NORMALIZER" = Some "lemma" ->
  w ∈ word_tokenize nl (clean t) -> tag_of nl w = [] ->
  loop_body nl t g = (inl IndexError, g).
Proof.
  intros Hg Hin Htag. rewrite (loop_body_lemma_eq t g Hg).
  rewrite (comprehension_raise _ _ IndexError); [done| |].
  - intros x. apply lemmatize_outcome.
  - exists w. split; [done|]. unfold bind.
    destruct (pos_tagger_outcome w g) as [[_ Hw]|[Hne _]]; [by rewrite Hw|done].
Qed.

Lemma for_text_in_raise corpus acc e (g : globals) :
  (forall t, (exists t', loop_body nl t g = (inr t', g)) \/ loop_body nl t g = (inl e, g)) ->
  (exists t, t ∈ corpus /\ loop_body nl t g = (inl e, g)) ->
  for_text_in nl corpus acc g = (inl e, g).
Proof.
  intros Hf. revert acc. induction corpus as [|t rest IH]; intros acc (t0 & Hin & Ht0).
  { by apply elem_of_nil in Hin. }
  simpl. unfold bind. destruct (Hf t) as [[t' Ht]|Ht]; rewrite Ht; [|done].
  apply IH. apply elem_of_cons in Hin as [->|Hin]; [congruence|eauto].
Qed.

(** X8: in mode ["lemma"] one token for which [pos_tag] gives no tag, in
    any text of the input, makes the whole call raise [IndexError]; nothing
    of the batch is returned. *)
Theorem preprocessor_untagged_token corpus t w (CONFIG : globals) :
  CONFIG !! "NORMALIZER" = Some "lemma" ->
  t ∈ texts_of corpus ->
  w ∈ word_tokenize nl (clean t) ->
  tag_of nl w = [] ->
  preprocessor nl corpus CONFIG = (inl IndexError, CONFIG).
Proof.
  intros Hg Ht Hw Htag. unfold preprocessor, bind.
  change (match corpus with PStr s => [s] | PList l => l end) with (texts_of corpus).
  rewrite (for_text_in_raise _ _ IndexError); [done| |].
  - intros t0. by apply loop_body_lemma_outcome.
  - exists t. split; [done|]. by apply (loop_body_untagged t w).
Qed.

End WithNltk.

(** X9: in mode ["stem"] neither the tagger nor the lemmatizer is
    consulted: two NLTK that tokenize and stem alike give the same outcome,
    whatever their taggers and lemmatizers do. *)
Theorem preprocessor_stem_ignores_tagger nl1 nl2 corpus (CONFIG : globals) :
  (forall t, word_tokenize nl1 t = word_tokenize nl2 t) ->
  (forall w, porter_stem nl1 w = porter_stem nl2 w) ->
  CONFIG !! "NORMALIZER" = Some "stem" ->
  preprocessor nl1 corpus CONFIG = preprocessor nl2 corpus CONFIG.
Proof.
  intros Htok Hstem Hg.
  rewrite (preprocessor_run nl1 (normalize nl1 Stem)), (preprocessor_run nl2 (normalize nl2 Stem));
    try (intros t; by apply loop_body_stem).
  do 3 f_equal. apply map_ext. intros t. unfold normalize. rewrite Htok.
  f_equal. apply map_ext. intros w. apply Hstem.
Qed.

Lemma preprocessor_untagged_token_witness :
  preprocessor untagging_nltk (PList [review; str "3/10 <i>bad</i>"]) (config "lemma")
  = (inl IndexError, config "lemma").
Proof.
  apply (preprocessor_untagged_token untagging_nltk _ (str "3/10 <i>bad</i>") (str "bad")).
  - reflexivity.
  - apply list_elem_of_In. right. left. reflexivity.
  - apply list_elem_of_In. vm_compute. right. right. left. reflexivity.
  - reflexivity.
Defined.

Lemma preprocessor_stem_ignores_tagger_witness :
  preprocessor plain_nltk (PStr review) (config "stem")
  = preprocessor untagging_nltk (PStr review) (config "stem").
Proof.
  apply (preprocessor_stem_ignores_tagger plain_nltk untagging_nltk);
    [reflexivity|reflexivity|reflexivity].
Defined.

End PreprocessorFacts.

(** ** [get_top_runs] and [load_model] over any client *)

Module ClientFacts.
Import Tracker Shapes.

Lemma for_run_in_outcome runs run_ids :
  for_run_in runs run_ids
  = if forallb has_model_type runs
    then inr (run_ids ++ map (fun r => run_id (info r)) runs)
    else inl (KeyError "model_type").
Proof.
  revert run_ids. induction runs as [|r runs IH]; intros run_ids; simpl.
  - by rewrite app_nil_r.
  - unfold has_model_type at 1, subscript.
    destruct (tags (data r) !! "model_type") as [ty|] eqn:Hty.
    + rewrite bool_decide_eq_true_2 by by eexists. simpl. rewrite IH.
      destruct (forallb has_model_type runs); [|done]. by rewrite <- app_assoc.
    + rewrite bool_decide_eq_false_2 by by intros [? ?]. done.
Qed.

(** X10: whatever the client is, [get_top_runs] passes the client's error
    on; on an answer it returns one id per run, in the order of the answer,
    unless one of the runs has no [model_type] tag: then it raises
    [KeyError], although the tag is only printed. *)
Theorem get_top_runs_outcome client experiment_id max_results :
  get_top_runs client experiment_id max_results
  = match search_runs client (pretty experiment_id) (fun _ => true) ACTIVE_ONLY
            max_results ("accuracy", DESC) with
    | inl e => inl e
    | inr runs =>
        if forallb has_model_type runs
        then inr (map (fun r => run_id (info r)) runs)
        else inl (KeyError "model_type")
    end.
Proof.
  unfold get_top_runs.
  destruct (search_runs client _ _ _ _ _) as [e|runs]; [done|].
  simpl. apply for_run_in_outcome.
Qed.

Lemma no_slash_pretty_N_go x s : no_slash s = true -> no_slash (pretty_N_go x s) = true.
Proof.
  revert s. induction (N.lt_wf_0 x) as [x _ IH]; intros s Hs.
  assert (x = 0 \/ 0 < x)%N as [->|Hx] by lia.
  - by rewrite pretty_N_go_0.
  - rewrite pretty_N_go_step by done. apply IH; [by apply N.div_lt|].
    simpl. rewrite Hs. unfold pretty_N_char. by repeat case_match.
Qed.

Lemma no_slash_pretty (n : nat) : no_slash (pretty n) = true.
Proof.
  unfold pretty, pretty_nat, pretty, pretty_N. case_decide; [done|].
  by apply no_slash_pretty_N_go.
Qed.

Lemma split_at_slash d1 d2 r1 r2 :
  no_slash d1 = true -> no_slash d2 = true ->
  d1 +:+ String "/" r1 = d2 +:+ String "/" r2 -> d1 = d2 /\ r1 = r2.
Proof.
  revert d2. induction d1 as [|c d1 IH]; intros [|c2 d2] H1 H2 Heq.
  - by injection Heq as ->.
  - exfalso. injection Heq as <- _. by simpl in H2.
  - exfalso. injection Heq as -> _. by simpl in H1.
  - injection Heq as -> Heq. simpl in H1, H2.
    apply andb_true_iff in H1 as [_ H1]. apply andb_true_iff in H2 as [_ H2].
    destruct (IH d2 H1 H2 Heq) as [-> ->]. done.
Qed.

Lemma string_app_length s t : String.length (s +:+ t) = String.length s + String.length t.
Proof. induction s as [|c s IH]; [done|]. cbn. by rewrite <- IH. Qed.

Lemma string_app_inv_tail s1 s2 t : s1 +:+ t = s2 +:+ t -> s1 = s2.
Proof.
  revert s2. induction s1 as [|c s1 IH]; intros [|c2 s2] Heq.
  - done.
  - exfalso. apply (f_equal String.length) in Heq.
    change (String c2 s2 +:+ t) with (String c2 (s2 +:+ t)) in Heq.
    change ("" +:+ t) with t in Heq. simpl in Heq. rewrite string_app_length in Heq. lia.
  - exfalso. apply (f_equal String.length) in Heq.
    change (String c s1 +:+ t) with (String c (s1 +:+ t)) in Heq.
    change ("" +:+ t) with t in Heq. simpl in Heq. rewrite string_app_length in Heq. lia.
  - change (String c (s1 +:+ t) = String c2 (s2 +:+ t)) in Heq.
    injection Heq as -> Heq. by rewrite (IH s2 Heq).
Qed.

(** X11: two calls of [load_model] look at the same artifact path only
    when they name the same experiment and the same run: the path
    [mlflow/mlruns/<experiment_id>/<run_id>/artifacts] determines both. *)
Theorem artifact_path_inj experiment_id1 run_id1 experiment_id2 run_id2 :
  artifact_path experiment_id1 run_id1 = artifact_path experiment_id2 run_id2 ->
  experiment_id1 = experiment_id2 /\ run_id1 = run_id2.
Proof.
  unfold artifact_path. intros Heq.
  apply (inj (String.app "mlflow/mlruns/")) in Heq.
  change ("/" +:+ ?s) with (String "/" s) in Heq.
  apply split_at_slash in Heq as [Hexp Hrun]; [|apply no_slash_pretty..].
  split; [by apply (inj pretty)|by apply string_app_inv_tail in Hrun].
Qed.

Lemma artifact_path_inj_witness :
  default_experiment_id = 1 /\ "35b60b1ee6054fb5b78084524dfdd307" = "35b60b1ee6054fb5b78084524dfdd307".
Proof.
  apply (artifact_path_inj default_experiment_id "35b60b1ee6054fb5b78084524dfdd307"
           1 "35b60b1ee6054fb5b78084524dfdd307").
  reflexivity.
Defined.

End ClientFacts.

(** ** The frame operations of the data-preparation notebook *)

Module FrameFacts.
Import Partition PartitionFacts.

Lemma drop_check labels (df : DataFrame) :
  forallb (fun l => existsb (fun r => label r =? l) df) labels = true
  <-> forall l, l ∈ labels -> l ∈ index df.
Proof.
  rewrite forallb_forall. split; intros H l Hl.
  - apply list_elem_of_In, H, existsb_exists in Hl as (r & Hr & Heq).
    apply Nat.eqb_eq in Heq. subst. unfold index.
    by apply list_elem_of_fmap_2, list_elem_of_In.
  - apply list_elem_of_In, H in Hl. unfold index in Hl.
    apply list_elem_of_fmap in Hl as (r & -> & Hr).
    apply existsb_exists. exists r. split; [by apply list_elem_of_In|by apply Nat.eqb_eq].
Qed.

Lemma drop_inr labels (df rest : DataFrame) :
  drop labels df = inr rest -> rest = filter (fun r => label r ∉ labels) df.
Proof.
  unfold drop. destruct (forallb _ labels); [|discriminate]. by intros [= <-].
Qed.

Lemma sample_too_large permutation n seed (df : DataFrame) :
  length df < n -> sample permutation n seed df = inl ValueError.
Proof. intros Hn. unfold sample. apply Nat.leb_gt in Hn. by rewrite Hn. Qed.

(** X12: [df.sample(n, random_state=seed)] draws without replacement.
    When the frame has at least [n] rows it returns [n] of them, none more
    often than the frame holds it; when it has fewer it raises
    [ValueError]. *)
Theorem sample_without_replacement permutation n seed (df : DataFrame) :
  (forall seed n, permutation seed n ≡ₚ seq 0 n) ->
  (n <= length df ->
   exists rows, sample permutation n seed df = inr rows
                /\ length rows = n /\ rows ⊆+ df)
  /\ (length df < n -> sample permutation n seed df = inl ValueError).
Proof.
  intros Hspec. split.
  - intros Hn.
    set (perm := permutation seed (length df)).
    assert (Hperm : perm ≡ₚ seq 0 (length df)) by apply Hspec.
    assert (Hsplit : omap (fun i => df !! i) (take n perm)
                     ++ omap (fun i => df !! i) (List.skipn n perm) ≡ₚ df).
    { rewrite <- omap_app, take_drop, Hperm. by rewrite omap_lookup_seq. }
    assert (Hvalid : Forall (fun i => is_Some (df !! i)) (take n perm)).
    { apply Forall_forall. intros i Hi. apply lookup_lt_is_Some.
      assert (Hin : i ∈ perm)
        by (rewrite <- (take_drop n perm); apply elem_of_app; by left).
      rewrite Hperm in Hin. apply elem_of_seq in Hin. lia. }
    exists (omap (fun i => df !! i) (take n perm)). split; [|split].
    + unfold sample. apply Nat.leb_le in Hn. rewrite Hn. fold perm.
      by rewrite (mapM_total _ _ Hvalid).
    + rewrite <- (length_mapM _ _ _ (mapM_total _ _ Hvalid)).
      apply length_take_le. rewrite Hperm, length_seq. exact Hn.
    + rewrite <- Hsplit. by apply submseteq_inserts_r.
  - apply sample_too_large.
Qed.

Lemma sample_without_replacement_witness :
  exists rows, sample backwards 2 random_state (read_csv (imdb 5)) = inr rows
               /\ length rows = 2 /\ rows ⊆+ read_csv (imdb 5).
Proof.
  destruct (sample_without_replacement backwards 2 random_state (read_csv (imdb 5))
              backwards_spec) as [Hok _].
  apply Hok. vm_compute. lia.
Defined.

(** X13: [df.drop(labels)] succeeds exactly when every label is in the
    index.  It then keeps, in their order, the rows whose label is not
    listed; dropping the same labels once more raises [KeyError].  A label
    that is not in the index raises [KeyError] at once. *)
Theorem drop_outcome labels (df : DataFrame) :
  ((forall l, l ∈ labels -> l ∈ index df) ->
   exists rest,
     drop labels df = inr rest
     /\ rest `sublist_of` df
     /\ (forall r, r ∈ rest <-> r ∈ df /\ label r ∉ labels)
     /\ (labels <> [] -> drop labels rest = inl (KeyError "index")))
  /\ ((exists l, l ∈ labels /\ l ∉ index df) -> drop labels df = inl (KeyError "index")).
Proof.
  split.
  - intros Hall. exists (filter (fun r => label r ∉ labels) df).
    split; [|split; [|split]].
    + unfold drop. by rewrite (proj2 (drop_check _ _) Hall).
    + apply sublist_filter.
    + intros r. rewrite list_elem_of_filter. tauto.
    + intros Hne. unfold drop.
      destruct (forallb _ labels) eqn:Hcheck; [|done].
      exfalso. pose proof (proj1 (drop_check _ _) Hcheck) as Hcheck'.
      clear Hcheck. rename Hcheck' into Hcheck.
      destruct labels as [|l labels]; [done|].
      assert (Hl : l ∈ l :: labels) by by left.
      pose proof (Hcheck l Hl) as Hin. unfold index in Hin.
      apply list_elem_of_fmap in Hin as (r & -> & Hr).
      apply list_elem_of_filter in Hr as [Hnot _]. contradiction.
  - intros (l & Hl & Hnot). unfold drop.
    destruct (forallb _ labels) eqn:Hcheck; [|done].
    exfalso. pose proof (proj1 (drop_check _ _) Hcheck) as Hcheck'.
    by apply Hnot, Hcheck'.
Qed.



End FrameFacts.

(** ** The notebook as a whole *)

Module NotebookFacts.
Import Partition Shapes PartitionFacts FrameFacts.

Lemma cells_of_notebook_too_short permutation a b seed file :
  (forall seed n, permutation seed n ≡ₚ seq 0 n) ->
  length file < a + b ->
  cells_of_notebook permutation a b seed file = inl ValueError.
Proof.
  intros Hspec Hlen. unfold cells_of_notebook. cbv zeta.
  assert (Hlen0 : length (read_csv file) = length file) by apply length_imap.
  destruct (decide (a <= length file)) as [Ha|Ha].
  - assert (Hdup0 : NoDup (index (read_csv file))).
    { rewrite index_read_csv. apply NoDup_seq. }
    destruct (sample_then_drop permutation Hspec a seed (read_csv file))
      as (tr & df1 & Hs1 & Hd1 & Hp1 & Hl1); [lia|done|].
    rewrite Hs1. simpl. rewrite Hd1. simpl.
    assert (Hlen1 : length df1 < b).
    { apply Permutation_length in Hp1. rewrite length_app in Hp1. lia. }
    by rewrite (sample_too_large permutation b seed df1 Hlen1).
  - rewrite (sample_too_large permutation a seed (read_csv file)) by lia. done.
Qed.

(** X15: the notebook stops with [ValueError] exactly when the file has
    fewer than 7,000 rows: the first sample needs 5,000 and the second one
    2,000 of those that are left.  Nothing is written then. *)
Theorem notebook_needs_7000_rows permutation file :
  (forall seed n, permutation seed n ≡ₚ seq 0 n) ->
  notebook permutation file = inl ValueError
  <-> length file < training_size + validation_size.
Proof.
  intros Hspec. split.
  - intros Hfail.
    destruct (decide (length file < training_size + validation_size)) as [|Hge]; [done|].
    destruct (cells_of_notebook_run permutation Hspec training_size validation_size
                random_state file) as (tr & va & rest & Hrun & _); [lia|].
    unfold notebook in Hfail. congruence.
  - intros Hlen. by apply cells_of_notebook_too_short.
Qed.

Lemma imdb_too_short :
  length (imdb (N.to_nat 6999)) < training_size + validation_size.
Proof. unfold imdb, training_size, validation_size. rewrite length_replicate. lia. Qed.

Lemma notebook_needs_7000_rows_witness :
  notebook backwards (imdb (N.to_nat 6999)) = inl ValueError.
Proof.
  apply (notebook_needs_7000_rows backwards (imdb (N.to_nat 6999)) backwards_spec).
  exact imdb_too_short.
Defined.

Lemma exported_review i rec r :
  r ∈ cells <$> export [row_of i rec] ->
  id_of r = Some i /\ column "review" r = Some (CText (fst rec)).
Proof. rewrite cells_export. intros Hin. apply list_elem_of_singleton in Hin as ->. done. Qed.

Lemma exported_review_unlabelled i rec r :
  r ∈ cells <$> export [without "sentiment" (row_of i rec)] ->
  id_of r = Some i /\ column "review" r = Some (CText (fst rec)).
Proof. rewrite cells_export. intros Hin. apply list_elem_of_singleton in Hin as ->. done. Qed.

Lemma length_export (df : DataFrame) : length (cells <$> export df) = length df.
Proof. unfold export, rename, reset_index. by rewrite !length_fmap, length_imap. Qed.

(** X16: no review is lost or mixed up.  When the notebook has run, the
    three tables together hold as many records as the file has rows, and
    every record carries the review text of the row of its id. *)
Theorem tables_keep_reviews permutation file :
  (forall seed n, permutation seed n ≡ₚ seq 0 n) ->
  training_size + validation_size <= length file ->
  exists p,
    notebook permutation file = inr p
    /\ length (Sql.training (conn p)) + length (Sql.validation (conn p))
       + length (Sql.unlabeled_pool (conn p)) = length file
    /\ forall r, r ∈ Sql.training (conn p) ++ Sql.validation (conn p)
                     ++ Sql.unlabeled_pool (conn p) ->
                 exists i rec, file !! i = Some rec /\ id_of r = Some i
                               /\ column "review" r = Some (CText (fst rec)).
Proof.
  intros Hspec Hlen.
  destruct (cells_of_notebook_run permutation Hspec training_size validation_size
              random_state file Hlen) as (tr & va & rest & Hrun & Hsplit & _).
  eexists. split; [exact Hrun|]. cbn [conn Sql.training Sql.validation Sql.unlabeled_pool].
  assert (Hrow : forall row, row ∈ tr ++ va ++ rest ->
                             exists i rec, file !! i = Some rec /\ row = row_of i rec).
  { intros row Hin. rewrite Hsplit in Hin. by apply read_csv_rows. }
  split.
  - rewrite !length_export, length_fmap.
    apply Permutation_length in Hsplit. unfold read_csv in Hsplit.
    rewrite !length_app, length_imap in Hsplit. lia.
  - intros r Hin. rewrite !elem_of_app in Hin.
    destruct Hin as [Hin|[Hin|Hin]]; apply exported_row in Hin as (row & Hin & Hr).
    + assert (Hin' : row ∈ tr ++ va ++ rest) by (rewrite !elem_of_app; auto).
      apply Hrow in Hin' as (i & rec & Hrec & ->).
      exists i, rec. split; [done|]. by apply exported_review.
    + assert (Hin' : row ∈ tr ++ va ++ rest) by (rewrite !elem_of_app; auto).
      apply Hrow in Hin' as (i & rec & Hrec & ->).
      exists i, rec. split; [done|]. by apply exported_review.
    + apply list_elem_of_fmap in Hin as (row' & -> & Hin).
      assert (Hin' : row' ∈ tr ++ va ++ rest) by (rewrite !elem_of_app; auto).
      apply Hrow in Hin' as (i & rec & Hrec & ->).
      exists i, rec. split; [done|]. by apply exported_review_unlabelled.
Qed.

Lemma tables_keep_reviews_witness :
  exists p,
    notebook backwards (imdb (N.to_nat 50000)) = inr p
    /\ length (Sql.training (conn p)) + length (Sql.validation (conn p))
       + length (Sql.unlabeled_pool (conn p)) = length (imdb (N.to_nat 50000)).
Proof.
  destruct (tables_keep_reviews backwards (imdb (N.to_nat 50000))
              backwards_spec imdb_large_enough) as (p & Hrun & Hcount & _).
  exists p. split; [exact Hrun|exact Hcount].
Defined.

(** X17: whenever the notebook finishes, the unlabeled pool is in the
    order of the file: its ids ascend, in the frame and in the table,
    because [drop] keeps the rows it does not remove in place. *)
Theorem unlabeled_pool_in_file_order permutation file p :
  notebook permutation file = inr p ->
  index (unlabeled_pool p) `sublist_of` seq 0 (length file)
  /\ omap id_of (Sql.unlabeled_pool (conn p)) = index (unlabeled_pool p).
Proof.
  unfold notebook, cells_of_notebook. cbv zeta. unfold try_bind.
  destruct (sample permutation training_size random_state (read_csv file))
    as [e|tr]; [discriminate|].
  destruct (drop (index tr) (read_csv file)) as [e|df1] eqn:Hd1; [discriminate|].
  destruct (sample permutation validation_size random_state df1) as [e|va]; [discriminate|].
  destruct (drop (index va) df1) as [e|df2] eqn:Hd2; [discriminate|].
  destruct (drop_columns "sentiment" df2) as [e|pool] eqn:Hcols; [discriminate|].
  intros [= <-]. cbn [unlabeled_pool conn Sql.unlabeled_pool].
  apply drop_inr in Hd1, Hd2. unfold drop_columns in Hcols.
  destruct (forallb _ df2); [|discriminate]. injection Hcols as <-.
  split.
  - rewrite index_without, <- index_read_csv. unfold index. apply fmap_sublist.
    rewrite Hd2, Hd1. etrans; apply sublist_filter.
  - unfold to_sql. simpl. rewrite cells_export. by apply omap_fmap_total.
Qed.

Lemma unlabeled_pool_in_file_order_witness :
  exists p,
    notebook backwards (imdb (N.to_nat 50000)) = inr p
    /\ index (unlabeled_pool p) `sublist_of` seq 0 (length (imdb (N.to_nat 50000)))
    /\ omap id_of (Sql.unlabeled_pool (conn p)) = index (unlabeled_pool p).
Proof.
  destruct (cells_of_notebook_run backwards backwards_spec training_size validation_size
              random_state (imdb (N.to_nat 50000)) imdb_large_enough)
    as (tr & va & rest & Hrun & _).
  eexists. split; [exact Hrun|].
  exact (unlabeled_pool_in_file_order backwards (imdb (N.to_nat 50000)) _ Hrun).
Defined.

Lemma notebook_conn permutation file p :
  notebook permutation file = inr p ->
  conn p = export_cells Sql.created p.
Proof.
  unfold notebook, cells_of_notebook. cbv zeta. unfold try_bind.
  destruct (sample permutation training_size random_state (read_csv file))
    as [e|tr]; [discriminate|].
  destruct (drop (index tr) (read_csv file)) as [e|df1]; [discriminate|].
  destruct (sample permutation validation_size random_state df1) as [e|va]; [discriminate|].
  destruct (drop (index va) df1) as [e|df2]; [discriminate|].
  destruct (drop_columns "sentiment" df2) as [e|pool]; [discriminate|].
  by intros [= <-].
Qed.

Lemma ids_twice (table : list record) : ids (table ++ table) = ids table.
Proof. unfold ids. rewrite omap_app, list_to_set_app_L. by rewrite (idemp_L (∪)). Qed.

(** X18: the export cells append.  Run a second time on the database the
    notebook has written, they leave every table with each of its records
    twice; the id sets stay the same, so an id no longer names one
    record. *)
Theorem export_cells_twice permutation file p :
  notebook permutation file = inr p ->
  Sql.training (export_cells (conn p) p) = Sql.training (conn p) ++ Sql.training (conn p)
  /\ Sql.validation (export_cells (conn p) p)
     = Sql.validation (conn p) ++ Sql.validation (conn p)
  /\ Sql.unlabeled_pool (export_cells (conn p) p)
     = Sql.unlabeled_pool (conn p) ++ Sql.unlabeled_pool (conn p)
  /\ ids (Sql.training (export_cells (conn p) p)) = ids (Sql.training (conn p))
  /\ ids (Sql.validation (export_cells (conn p) p)) = ids (Sql.validation (conn p))
  /\ ids (Sql.unlabeled_pool (export_cells (conn p) p)) = ids (Sql.unlabeled_pool (conn p)).
Proof.
  intros Hrun. apply notebook_conn in Hrun.
  assert (Ht : Sql.training (export_cells (conn p) p)
               = Sql.training (conn p) ++ Sql.training (conn p)).
  { rewrite Hrun at 3. reflexivity. }
  assert (Hv : Sql.validation (export_cells (conn p) p)
               = Sql.validation (conn p) ++ Sql.validation (conn p)).
  { rewrite Hrun at 3. reflexivity. }
  assert (Hu : Sql.unlabeled_pool (export_cells (conn p) p)
               = Sql.unlabeled_pool (conn p) ++ Sql.unlabeled_pool (conn p)).
  { rewrite Hrun at 3. reflexivity. }
  rewrite Ht, Hv, Hu, !ids_twice. done.
Qed.

Lemma export_cells_twice_witness :
  exists p,
    notebook backwards (imdb (N.to_nat 50000)) = inr p
    /\ Sql.training (export_cells (conn p) p)
       = Sql.training (conn p) ++ Sql.training (conn p)
    /\ ids (Sql.training (export_cells (conn p) p)) = ids (Sql.training (conn p)).
Proof.
  destruct (cells_of_notebook_run backwards backwards_spec training_size validation_size
              random_state (imdb (N.to_nat 50000)) imdb_large_enough)
    as (tr & va & rest & Hrun & _).
  eexists. split; [exact Hrun|].
  destruct (export_cells_twice backwards (imdb (N.to_nat 50000)) _ Hrun)
    as (Ht & _ & _ & Hi & _).
  split; [exact Ht|exact Hi].
Defined.

End NotebookFacts.
